(** * Fuzzy frames for sprains and strains

  A shallow embedding of the fuzzy-scoring core of the repository:

  - [app.py]: [gaussian_membership], [fetch_indicator_value] and the
    [/fuzzy] endpoint;
  - [logicaDifusa.py]: the Cypher statements [gaussian_params_dolor],
    [fuzz_gauss_dolor], [entropy_dolor] and [rule_alerta_riesgo_alto],
    and the script runner [run_many];
  - [esguincestorceduras.py]: the Cypher statement
    [CYpher_REGLA_HEMATOMA_SEVERO].

  Numbers are real numbers: Python and Cypher floats are read as the
  reals they denote and every operation is exact, so overflow, underflow
  and the rounding of binary64 are outside the model.  The graph store is
  a property graph: a list of nodes (labels and a property map) and a
  list of typed edges between node positions. *)

From Stdlib Require Import Reals Lra Lia ZArith Ascii String.
From stdpp Require Import gmap strings list fin_maps.

Open Scope R_scope.

(** ** Decimal rounding *)

Module Rounding.

(** Python's [round(x, d)]: to the nearest multiple of [10^-d], a tie
    going to the even one. *)
Definition py_round (x : R) (d : nat) : R :=
  let t := x * 10 ^ d in
  let f := Int_part t in
  if Rlt_dec (t - IZR f) (1 / 2) then IZR f / 10 ^ d
  else if Rlt_dec (1 / 2) (t - IZR f) then IZR (f + 1) / 10 ^ d
  else if Z.even f then IZR f / 10 ^ d
  else IZR (f + 1) / 10 ^ d.

(** Cypher's [round(x, d)]: to the nearest multiple of [10^-d], a tie
    going away from zero (mode HALF_UP). *)
Definition cy_round (x : R) (d : nat) : R :=
  if Rle_dec 0 x then IZR (Int_part (x * 10 ^ d + 1 / 2)) / 10 ^ d
  else - (IZR (Int_part (- x * 10 ^ d + 1 / 2)) / 10 ^ d).


End Rounding.

(** ** The graph store *)

Module Store.

(** Property values as Cypher and the Python driver have them. *)
Inductive Value : Type :=
| VInt (z : Z)
| VFloat (r : R)
| VStr (s : string)
| VBool (b : bool)
| VDateTime (t : nat).

(** A node: its labels and its properties.  A property that is absent
    reads as null, and null is never stored. *)
Record Node : Type := mkNode {
  labels : list string;
  props : gmap string Value
}.

(** An edge: source position, relationship type, target position. *)
Definition Rel : Type := (nat * string * nat)%type.

Record Graph : Type := mkGraph {
  nodes : list Node;
  rels : list Rel
}.

Definition has_label (l : string) (n : Node) : bool :=
  existsb (String.eqb l) (labels n).

Definition has_labels (ls : list string) (n : Node) : bool :=
  forallb (fun l => has_label l n) ls.

(** [n.k], [None] for null. *)
Definition prop (n : Node) (k : string) : option Value := props n !! k.

(** [n.k = 'lit'] for a string literal. *)
Definition prop_is_str (n : Node) (k lit : string) : bool :=
  match prop n k with
  | Some (VStr s) => String.eqb s lit
  | _ => false
  end.

(** [n.k = $z] for an integer parameter: Cypher compares numbers across
    integer and float. *)
Definition prop_is_int (n : Node) (k : string) (z : Z) : bool :=
  match prop n k with
  | Some (VInt z') => Z.eqb z' z
  | Some (VFloat r) => if Req_dec_T r (IZR z) then true else false
  | _ => false
  end.

(** The numeric reading of a value; [None] when it is not a number. *)
Definition as_number (v : Value) : option R :=
  match v with
  | VInt z => Some (IZR z)
  | VFloat r => Some r
  | _ => None
  end.

(** Positions of the nodes of [l] that satisfy [p], counted from [i]. *)
Fixpoint find_from (p : Node -> bool) (i : nat) (l : list Node) : list nat :=
  match l with
  | [] => []
  | n :: l' => if p n then i :: find_from p (S i) l' else find_from p (S i) l'
  end.

(** [MATCH (n) WHERE p n]: the positions of the matching nodes, in store
    order. *)
Definition match_nodes (p : Node -> bool) (g : Graph) : list nat :=
  find_from p 0 (nodes g).

Definition node_at (g : Graph) (i : nat) : option Node := nodes g !! i.

(** The property [k] of the node at position [i]; [None] for null. *)
Definition get_prop (g : Graph) (i : nat) (k : string) : option Value :=
  n ← node_at g i; prop n k.

(** [SET n.k = v] on a node; setting null removes the property. *)
Definition set_node_prop (k : string) (v : option Value) (n : Node) : Node :=
  mkNode (labels n)
    (match v with
     | Some w => <[k := w]> (props n)
     | None => delete k (props n)
     end).

(** [SET n.k = v] on the node at position [i] of the store. *)
Definition set_prop (i : nat) (k : string) (v : option Value) (g : Graph) : Graph :=
  match nodes g !! i with
  | Some n => mkGraph (<[i := set_node_prop k v n]> (nodes g)) (rels g)
  | None => g
  end.

(** [CREATE] a node; its position is the old number of nodes. *)
Definition add_node (n : Node) (g : Graph) : Graph :=
  mkGraph (nodes g ++ [n]) (rels g).

Definition rel_eqb (a b : Rel) : bool :=
  Nat.eqb a.1.1 b.1.1 && String.eqb a.1.2 b.1.2 && Nat.eqb a.2 b.2.

(** [MERGE (a)-[:ty]->(b)] between two bound nodes: the edge is created
    only when there is none. *)
Definition merge_rel (r : Rel) (g : Graph) : Graph :=
  if existsb (rel_eqb r) (rels g) then g
  else mkGraph (nodes g) (rels g ++ [r]).

(** [MERGE (n:l {k: 'lit'})]: every node with the label and the property
    is bound; when there is none, one is created with [on_create]
    applied to it.  Returns the store and the bound positions. *)
Definition merge_node (l k lit : string) (on_create : gmap string Value -> gmap string Value)
    (g : Graph) : Graph * list nat :=
  match match_nodes (fun n => has_label l n && prop_is_str n k lit) g with
  | [] =>
      (add_node (mkNode [l] (on_create {[ k := VStr lit ]})) g,
       [length (nodes g)])
  | found => (g, found)
  end.

(** [(al:Alerta {codigo: code})] *)
Definition is_alerta (code : string) (n : Node) : bool :=
  has_label "Alerta" n && prop_is_str n "codigo" code.

(** The Alert records of a code. *)
Definition alertas (code : string) (g : Graph) : list nat :=
  match_nodes (is_alerta code) g.

(** A predicate on nodes that SET of [k] cannot change. *)
Definition ignores (k : string) (p : Node -> bool) : Prop :=
  forall (v : option Value) (n : Node), p (set_node_prop k v n) = p n.

End Store.

(** ** app.py: the Gaussian membership and the /fuzzy endpoint *)

Module App.
Import Store Rounding.

(** [class FuzzyQuery(BaseModel)] *)
Record FuzzyQuery : Type := mkFuzzyQuery {
  indicador_nombre : string;
  valor : option R;
  media : R;
  sigma : R;
  dni : option Z;
  sintoma : option string
}.

(** [gaussian_membership(x, mu, sigma)] *)
Definition gaussian_membership (x mu sigma : R) : R :=
  if Rle_dec sigma 0 then 0
  else exp (- ((x - mu) ^ 2) / (2 * (sigma ^ 2))).

(** The parameters of one [graph.query] call of [fetch_indicator_value]. *)
Record Lookup : Type := mkLookup {
  lk_dni : Z;
  lk_sint : string;
  lk_iname : string
}.

(** The rows of
    [MATCH (p:Paciente{dni:$dni})-[:PRESENTA_SINTOMA]->(s:Sintoma{nombre:$sint})
           -[:TIENE_INDICADOR]->(i:Indicador{nombre:$iname}) RETURN i.valor]:
    one [i.valor] per matching path, null as [None]. *)
Definition indicator_rows (g : Graph) (k : Lookup) : list (option Value) :=
  '(p, t1, s) ← rels g;
  '(s', t2, i) ← rels g;
  match node_at g p, node_at g s, node_at g i with
  | Some np, Some ns, Some ni =>
      if String.eqb t1 "PRESENTA_SINTOMA" && String.eqb t2 "TIENE_INDICADOR"
         && Nat.eqb s s'
         && has_label "Paciente" np && prop_is_int np "dni" (lk_dni k)
         && has_label "Sintoma" ns && prop_is_str ns "nombre" (lk_sint k)
         && has_label "Indicador" ni && prop_is_str ni "nombre" (lk_iname k)
      then [prop ni "valor"]
      else []
  | _, _, _ => []
  end.

(** [fetch_indicator_value(dni, sintoma, indicador_nombre)]: the value of
    the first row ([LIMIT 1]), [None] when there is no row or the value is
    null. *)
Definition fetch_indicator_value (g : Graph) (k : Lookup) : option Value :=
  match indicator_rows g k with
  | row :: _ => row
  | [] => None
  end.

(** What a call of the endpoint produces. *)
Inductive Response : Type :=
| Payload (indicador : string) (valor : Value)
          (gauss_media gauss_sigma pertenencia : R)
| ErrorPayload (error : string)
| Raises (exn : string).

(** Python truth of an [Optional[int]] and of an [Optional[str]]. *)
Definition truthy_int (o : option Z) : bool :=
  match o with Some z => negb (Z.eqb z 0) | None => false end.

Definition truthy_str (o : option string) : bool :=
  match o with Some s => negb (String.eqb s "") | None => false end.

(** The number Python's arithmetic takes a looked-up value for: [bool] is
    an [int]; a string or a date-time makes [x - mu] raise [TypeError]. *)
Definition py_number (v : Value) : option R :=
  match v with
  | VInt z => Some (IZR z)
  | VFloat r => Some r
  | VBool b => Some (if b then 1 else 0)
  | VStr _ | VDateTime _ => None
  end.

Definition no_value_msg : string :=
  "No hay valor del indicador. Proporcione 'valor' o (paciente+sintoma)".

(** [gaussian_membership] called on a resolved value: the guard on
    [sigma] comes before the arithmetic, so a value that is no number
    raises [TypeError] ([None]) only when [sigma] is positive. *)
Definition gaussian_membership_on (v : Value) (mu sigma : R) : option R :=
  if Rle_dec sigma 0 then Some 0
  else xr ← py_number v; Some (gaussian_membership xr mu sigma).

(** [fuzzy(q)]: the response and the lookups sent to the store, in
    order. *)
Definition fuzzy (g : Graph) (q : FuzzyQuery) : Response * list Lookup :=
  let '(x, sent) :=
    match valor q with
    | Some r => (Some (VFloat r), [])
    | None =>
        if truthy_int (dni q) && truthy_str (sintoma q) then
          let k := mkLookup (default 0%Z (dni q)) (default "" (sintoma q))
                            (indicador_nombre q) in
          (fetch_indicator_value g k, [k])
        else (None, [])
    end in
  match x with
  | None => (ErrorPayload no_value_msg, sent)
  | Some v =>
      match gaussian_membership_on v (media q) (sigma q) with
      | None => (Raises "TypeError", sent)
      | Some mu =>
          (Payload (indicador_nombre q) v (media q) (sigma q) (py_round mu 4),
           sent)
      end
  end.

End App.

(** ** logicaDifusa.py: fuzzification, entropy and the high-risk rule *)

Module LogicaDifusa.
Import Store Rounding.

(** How a statement ends.  [Failed]: the store may reject it with a type
    error (an operand that is neither a number nor null), and the
    transaction is rolled back.  [NotReal]: a float division by zero,
    whose result (an infinity or NaN) is no real number. *)
Inductive Outcome (A : Type) : Type :=
| Done (a : A)
| Failed
| NotReal.
Arguments Done {A} a.
Arguments Failed {A}.
Arguments NotReal {A}.

#[export] Instance outcome_bind : MBind Outcome := fun A B f o =>
  match o with
  | Done a => f a
  | Failed => Failed
  | NotReal => NotReal
  end.

(** The slot the three statements address:
    [(s:Slot:Dolor {slot_name:'dolor_actual'})]. *)
Definition is_dolor_actual (n : Node) : bool :=
  has_labels ["Slot"; "Dolor"] n && prop_is_str n "slot_name" "dolor_actual".

Definition is_mejora_observada (n : Node) : bool :=
  has_labels ["Slot"; "Mejora"] n && prop_is_str n "slot_name" "mejora_observada".

(** *** 3) fuzz_gauss_dolor *)

(** [exp( - ((x - a) * (x - a)) / (2.0 * (b * b)) )] on numbers. *)
Definition gauss_expr (x a b : R) : Outcome R :=
  if Req_dec_T (2 * (b * b)) 0 then NotReal
  else Done (exp (- ((x - a) * (x - a)) / (2 * (b * b)))).

(** The same on property values: [x] is not null (the WHERE clause), the
    centre [a] may be null and then so is the result, the spread [b] has
    gone through [coalesce(.., 1e-6)]. *)
Definition membership_expr (x : Value) (a : option Value) (b : Value)
    : Outcome (option R) :=
  match as_number x, as_number b, a with
  | Some xr, Some br, Some av =>
      match as_number av with
      | Some ar => mu ← gauss_expr xr ar br; Done (Some mu)
      | None => Failed
      end
  | Some _, Some _, None => Done None
  | _, _, _ => Failed
  end.

Definition float_prop (o : option R) : option Value := VFloat <$> o.

(** The row [fuzz_gauss_dolor] returns for a slot. *)
Record FuzzRow : Type := mkFuzzRow {
  fz_slot : option Value;
  fz_valor : Value;
  fz_mu_leve : option R;
  fz_mu_moderado : option R;
  fz_mu_severo : option R
}.

(** The WHERE clause:
    [s.valor_crisp IS NOT NULL AND s.funcion_pertenencia = 'gaussiana']. *)
Definition fuzz_where (n : Node) : bool :=
  match prop n "valor_crisp" with Some _ => true | None => false end
  && prop_is_str n "funcion_pertenencia" "gaussiana".

(** WITH, SET and RETURN of [fuzz_gauss_dolor] for the slot at [i]. *)
Definition fuzz_slot (now : nat) (i : nat) (g : Graph) : Outcome (Graph * list FuzzRow) :=
  match node_at g i with
  | None => Done (g, [])
  | Some s =>
      match prop s "valor_crisp" with
      | None => Done (g, [])
      | Some x =>
          let bl := default (VFloat (1 / 10 ^ 6)) (prop s "b_leve") in
          let bm := default (VFloat (1 / 10 ^ 6)) (prop s "b_moderado") in
          let bs := default (VFloat (1 / 10 ^ 6)) (prop s "b_severo") in
          ml ← membership_expr x (prop s "a_leve") bl;
          mm ← membership_expr x (prop s "a_moderado") bm;
          ms ← membership_expr x (prop s "a_severo") bs;
          let g1 := set_prop i "mu_leve" (float_prop ml) g in
          let g2 := set_prop i "mu_moderado" (float_prop mm) g1 in
          let g3 := set_prop i "mu_severo" (float_prop ms) g2 in
          let g4 := set_prop i "fuzzy_last_updated" (Some (VDateTime now)) g3 in
          Done (g4, [mkFuzzRow (prop s "slot_name") x
                       ((fun m => cy_round m 3) <$> ml)
                       ((fun m => cy_round m 3) <$> mm)
                       ((fun m => cy_round m 3) <$> ms)])
      end
  end.

(** A statement body run for each bound row in turn, on the store the
    rows before it have left. *)
Fixpoint for_each {A B : Type} (f : A -> Graph -> Outcome (Graph * list B))
    (l : list A) (g : Graph) : Outcome (Graph * list B) :=
  match l with
  | [] => Done (g, [])
  | a :: l' =>
      r ← f a g;
      r' ← for_each f l' r.1;
      Done (r'.1, r.2 ++ r'.2)
  end.

(** [run(fuzz_gauss_dolor)] at time [now]. *)
Definition fuzz_gauss_dolor (now : nat) (g : Graph) : Outcome (Graph * list FuzzRow) :=
  for_each (fuzz_slot now)
    (match_nodes (fun n => is_dolor_actual n && fuzz_where n) g) g.

(** *** 4) entropy_dolor *)

(** [coalesce(v, 0.0)] *)
Definition coalesce0 (v : option Value) : Value := default (VFloat 0) v.

(** [CASE WHEN m > 0 THEN -(m * log(m)) ELSE 0.0 END]; a comparison with
    a value that is no number is null, which takes the ELSE branch. *)
Definition entropy_term (m : Value) : R :=
  match as_number m with
  | Some r => if Rlt_dec 0 r then - (r * ln r) else 0
  | None => 0
  end.

(** [reduce(h = 0.0, m IN U | h + CASE .. END) / log(3.0)] *)
Definition Hnorm (U : list Value) : R :=
  fold_left (fun h m => h + entropy_term m) U 0 / ln 3.

(** The memberships [entropy_dolor] reads off a slot: [[u1,u2,u3]]. *)
Definition slot_memberships (s : Node) : list Value :=
  [coalesce0 (prop s "mu_leve");
   coalesce0 (prop s "mu_moderado");
   coalesce0 (prop s "mu_severo")].

Record EntropyRow : Type := mkEntropyRow {
  en_slot : option Value;
  en_dolor_actual : option Value;
  en_entropia : R
}.

Definition entropy_slot (now : nat) (i : nat) (g : Graph) : Graph * list EntropyRow :=
  match node_at g i with
  | None => (g, [])
  | Some s =>
      let e := cy_round (Hnorm (slot_memberships s)) 4 in
      let g1 := set_prop i "entropia" (Some (VFloat e)) g in
      let g2 := set_prop i "entropia_updated_at" (Some (VDateTime now)) g1 in
      (g2, [mkEntropyRow (prop s "slot_name") (prop s "valor_crisp") e])
  end.

(** [run(entropy_dolor)] at time [now]. *)
Definition entropy_dolor (now : nat) (g : Graph) : Graph * list EntropyRow :=
  fold_left (fun acc i => let r := entropy_slot now i acc.1 in (r.1, acc.2 ++ r.2))
    (match_nodes is_dolor_actual g) (g, []).

(** *** 5) rule_alerta_riesgo_alto *)

Definition umbral_dolor : R := 7 / 10.
Definition umbral_mejora : R := 6 / 10.

(** [v >= t]; null when [v] is no number, which a WHERE clause rejects. *)
Definition cy_ge (v : Value) (t : R) : bool :=
  match as_number v with
  | Some r => if Rle_dec t r then true else false
  | None => false
  end.

(** The WHERE clause of the rule on a pair of slots. *)
Definition riesgo_alto_where (sd sm : Node) : bool :=
  cy_ge (coalesce0 (prop sd "mu_severo")) umbral_dolor
  && cy_ge (coalesce0 (prop sm "mu_baja")) umbral_mejora.

(** The row a pair of matched slots gives, if it passes the WHERE clause. *)
Definition riesgo_alto_row (g : Graph) (sd sm : nat) : list (nat * nat) :=
  match node_at g sd, node_at g sm with
  | Some nd, Some nm => if riesgo_alto_where nd nm then [(sd, sm)] else []
  | _, _ => []
  end.

(** The rows MATCH and WHERE bind: pairs of positions [(sd, sm)]. *)
Definition riesgo_alto_rows (g : Graph) : list (nat * nat) :=
  sd ← match_nodes is_dolor_actual g;
  sm ← match_nodes is_mejora_observada g;
  riesgo_alto_row g sd sm.

Definition codigo_riesgo_alto : string := "RIESGO_ALTO_ESGUINCE".

(** The SET clause of the rule on the alert at [al]. *)
Definition riesgo_alto_set (now : nat) (al : nat) (g : Graph) : Graph :=
  let g1 := set_prop al "ts" (Some (VDateTime now)) g in
  let g2 := set_prop al "severidad" (Some (VStr "alta")) g1 in
  let g3 := set_prop al "descripcion"
              (Some (VStr "Dolor severo y baja mejoría en esguince/torcedura")) g2 in
  set_prop al "resuelta" (Some (VBool false)) g3.

(** [RETURN al.codigo, al.severidad, al.descripcion, al.ts] *)
Record AlertRow : Type := mkAlertRow {
  ar_codigo : option Value;
  ar_severidad : option Value;
  ar_descripcion : option Value;
  ar_ts : option Value
}.

Definition alert_row (g : Graph) (al : nat) : list AlertRow :=
  match node_at g al with
  | Some a => [mkAlertRow (prop a "codigo") (prop a "severidad")
                          (prop a "descripcion") (prop a "ts")]
  | None => []
  end.

(** MERGE, SET and RETURN of the rule for one bound row. *)
Definition riesgo_alto_fire (now : nat) (g : Graph) : Graph * list AlertRow :=
  let '(g1, als) := merge_node "Alerta" "codigo" codigo_riesgo_alto (fun ps => ps) g in
  let g2 := fold_left (fun h al => riesgo_alto_set now al h) als g1 in
  (g2, al ← als; alert_row g2 al).

(** [run(rule_alerta_riesgo_alto)] at time [now]. *)
Definition rule_alerta_riesgo_alto (now : nat) (g : Graph) : Graph * list AlertRow :=
  fold_left (fun acc _ => let r := riesgo_alto_fire now acc.1 in (r.1, acc.2 ++ r.2))
    (riesgo_alto_rows g) (g, []).

(** A membership degree: a number in [0,1]. *)
Definition is_degree (v : Value) : Prop :=
  exists r, as_number v = Some r /\ 0 <= r <= 1.

(** The properties the SET clause of the rule writes. *)
Definition alert_key (k : string) : Prop :=
  k = "ts" \/ k = "severidad" \/ k = "descripcion" \/ k = "resuelta".

(** The SET clause on a node. *)
Definition alert_fields (now : nat) (n : Node) : Node :=
  set_node_prop "resuelta" (Some (VBool false))
    (set_node_prop "descripcion"
       (Some (VStr "Dolor severo y baja mejoría en esguince/torcedura"))
       (set_node_prop "severidad" (Some (VStr "alta"))
          (set_node_prop "ts" (Some (VDateTime now)) n))).

(** One firing of the rule, as a function on stores. *)
Definition fired (now : nat) (g : Graph) : Graph := (riesgo_alto_fire now g).1.

End LogicaDifusa.

(** ** esguincestorceduras.py: the immediate-referral rule *)

Module Monitoreo.
Import Store.

Definition lower_ascii (c : ascii) : ascii :=
  let n := nat_of_ascii c in
  if Nat.leb 65 n && Nat.leb n 90 then ascii_of_nat (n + 32) else c.

(** [toLower] on the ASCII letters; other bytes are kept, and none of
    them lowers to a letter of ['dolor']. *)
Fixpoint toLower (s : string) : string :=
  match s with
  | EmptyString => EmptyString
  | String c s' => String (lower_ascii c) (toLower s')
  end.

(** [s.intensidad = 'Intenso' AND toLower(s.nombre) = 'dolor'].  [None]:
    [s.nombre] is neither a string nor null and the store may reject the
    statement. *)
Definition regla_where (s : Node) : option bool :=
  match prop s "nombre" with
  | None => Some false
  | Some (VStr nombre) =>
      Some (prop_is_str s "intensidad" "Intenso"
            && String.eqb (toLower nombre) "dolor")
  | Some _ => None
  end.

(** The symptom of an edge that matches
    [(p:Paciente)-[:PRESENTA_SINTOMA]->(s:Sintoma)]. *)
Definition regla_candidate (g : Graph) (r : Rel) : option Node :=
  match node_at g r.1.1, node_at g r.2 with
  | Some np, Some ns =>
      if String.eqb r.1.2 "PRESENTA_SINTOMA"
         && has_label "Paciente" np && has_label "Sintoma" ns
      then Some ns
      else None
  | _, _ => None
  end.

(** The rows MATCH and WHERE bind: the patient of every matching edge
    whose symptom passes the WHERE clause. *)
Fixpoint regla_rows_of (g : Graph) (l : list Rel) : option (list nat) :=
  match l with
  | [] => Some []
  | r :: l' =>
      match regla_candidate g r with
      | Some ns =>
          b ← regla_where ns;
          rest ← regla_rows_of g l';
          Some (if b : bool then r.1.1 :: rest else rest)
      | None => regla_rows_of g l'
      end
  end.

Definition regla_rows (g : Graph) : option (list nat) :=
  regla_rows_of g (rels g).

Definition codigo_derivacion : string := "DERIVACION_INMEDIATA_DOLOR".

(** The ON CREATE SET clause. *)
Definition regla_on_create (now : nat) (ps : gmap string Value) : gmap string Value :=
  <["resuelta" := VBool false]>
    (<["created_at" := VDateTime now]>
       (<["descripcion" :=
            VStr "Dolor intenso: se recomienda derivación médica inmediata"]> ps)).

(** [RETURN p.id, p.nombre, a.codigo, a.descripcion] *)
Record ReglaRow : Type := mkReglaRow {
  paciente_id : option Value;
  nombre_paciente : option Value;
  codigo_alerta : option Value;
  motivo : option Value
}.

Definition regla_row (g : Graph) (p a : nat) : list ReglaRow :=
  match node_at g p, node_at g a with
  | Some np, Some na =>
      [mkReglaRow (prop np "id") (prop np "nombre")
                  (prop na "codigo") (prop na "descripcion")]
  | _, _ => []
  end.

(** The two MERGE clauses and RETURN for one bound patient. *)
Definition regla_fire (now : nat) (p : nat) (g : Graph) : Graph * list ReglaRow :=
  let '(g1, als) :=
    merge_node "Alerta" "codigo" codigo_derivacion (regla_on_create now) g in
  let g2 := fold_left (fun h a => merge_rel (p, "REQUIERE_ATENCION", a) h) als g1 in
  (g2, a ← als; regla_row g2 p a).

(** Running [CYpher_REGLA_HEMATOMA_SEVERO] at time [now]. *)
Definition regla_hematoma_severo (now : nat) (g : Graph)
    : option (Graph * list ReglaRow) :=
  rows ← regla_rows g;
  Some (fold_left
          (fun acc p => let r := regla_fire now p acc.1 in (r.1, acc.2 ++ r.2))
          rows (g, [])).

(** The edge the second MERGE looks for. *)
Definition req (p a : nat) : Rel := (p, "REQUIERE_ATENCION", a).

(** One firing of the rule for the patient [p], as a function on stores. *)
Definition fired_for (now : nat) (p : nat) (g : Graph) : Graph :=
  (regla_fire now p g).1.

(** The firings of the statement, one per bound row. *)
Definition run (now : nat) (ps : list nat) (g : Graph) : Graph :=
  fold_left (fun h p => fired_for now p h) ps g.

End Monitoreo.

(** ** Stores and requests of the scenarios *)

Module Scenarios.
Import Store App.

(** A store as the few-shot examples of app.py describe it: patient
    30111222 presents "dolor de tobillo", which has the indicator "edema"
    with value 2; patient 0 presents the same symptom. *)
Definition clinic : Graph :=
  mkGraph
    [ mkNode ["Paciente"] {[ "dni" := VInt 30111222 ]};
      mkNode ["Sintoma"] {[ "nombre" := VStr "dolor de tobillo" ]};
      mkNode ["Indicador"] (<["nombre" := VStr "edema"]> {[ "valor" := VInt 2 ]});
      mkNode ["Paciente"] {[ "dni" := VInt 0 ]};
      mkNode ["Sintoma"] {[ "nombre" := VStr "" ]};
      mkNode ["Indicador"] (<["nombre" := VStr "edema"]> {[ "valor" := VStr "moderado" ]}) ]
    [ (0, "PRESENTA_SINTOMA", 1); (1, "TIENE_INDICADOR", 2);
      (3, "PRESENTA_SINTOMA", 1); (0, "PRESENTA_SINTOMA", 4);
      (4, "TIENE_INDICADOR", 5) ]%nat.

Definition scenario_E : FuzzyQuery :=
  mkFuzzyQuery "edema" None 2 1 None None.

Definition query_dni_0 : FuzzyQuery :=
  mkFuzzyQuery "edema" None 2 1 (Some 0%Z) (Some "dolor de tobillo").

(** The pain slot as [seed_esguinces] and [gaussian_params_dolor] leave
    it, for a crisp value [x] and a category "severo" of centre [a] and
    spread [b]. *)
Definition dolor_slot (x a b : R) : Node :=
  mkNode ["Slot"; "Dolor"]
    (list_to_map
       [ ("slot_name", VStr "dolor_actual");
         ("valor_crisp", VFloat x);
         ("funcion_pertenencia", VStr "gaussiana");
         ("a_leve", VFloat 2); ("b_leve", VFloat (15 / 10));
         ("a_moderado", VFloat 5); ("b_moderado", VFloat (15 / 10));
         ("a_severo", VFloat a); ("b_severo", VFloat b) ]).

(** The improvement slot of the seed, with a membership [baja]. *)
Definition mejora_slot (baja : R) : Node :=
  mkNode ["Slot"; "Mejora"]
    (list_to_map
       [ ("slot_name", VStr "mejora_observada");
         ("valor_crisp", VFloat 40);
         ("mu_baja", VFloat baja);
         ("mu_media", VFloat (3 / 10));
         ("mu_alta", VFloat 0) ]).

Definition seed : Graph :=
  mkGraph [dolor_slot (75 / 10) 8 (12 / 10); mejora_slot (7 / 10)] [].

(** The seed with a negative spread for "severo" and the crisp value on
    its centre. *)
Definition seed_negative_spread : Graph :=
  mkGraph [dolor_slot 8 8 (- (12 / 10)); mejora_slot (7 / 10)] [].

(** The slots of the seed once the pain slot carries a membership
    [sev] for "severo"; the improvement slot has the membership [baja]. *)
Definition fuzzified (sev baja : R) : Graph :=
  mkGraph
    [ set_node_prop "mu_severo" (Some (VFloat sev))
        (dolor_slot (75 / 10) 8 (12 / 10));
      mejora_slot baja ] [].


(** A patient who presents an intense "Dolor". *)
Definition ward : Graph :=
  mkGraph
    [ mkNode ["Paciente"] (<["id" := VStr "P-001"]> {[ "nombre" := VStr "Paciente Demo" ]});
      mkNode ["Sintoma"] (<["nombre" := VStr "Dolor"]> {[ "intensidad" := VStr "Intenso" ]}) ]
    [ (0, "PRESENTA_SINTOMA", 1) ]%nat.

End Scenarios.

(** ** logicaDifusa.py: the Gaussian parameters of the pain slot *)

Module LogicaDifusaParams.
Import Store LogicaDifusa.




(** The SET clause of [fuzz_gauss_dolor] on a node. *)
Definition fuzz_fields (now : nat) (ml mm ms : option R) (n : Node) : Node :=
  set_node_prop "fuzzy_last_updated" (Some (VDateTime now))
    (set_node_prop "mu_severo" (float_prop ms)
       (set_node_prop "mu_moderado" (float_prop mm)
          (set_node_prop "mu_leve" (float_prop ml) n))).

(** The memberships [fuzz_gauss_dolor] computes for a node: [ml], [mm]
    and [ms] for the three categories. *)
Definition fuzz_values (s : Node) (x : Value) (ml mm ms : option R) : Prop :=
  membership_expr x (prop s "a_leve")
    (default (VFloat (1 / 10 ^ 6)) (prop s "b_leve")) = Done ml
  /\ membership_expr x (prop s "a_moderado")
       (default (VFloat (1 / 10 ^ 6)) (prop s "b_moderado")) = Done mm
  /\ membership_expr x (prop s "a_severo")
       (default (VFloat (1 / 10 ^ 6)) (prop s "b_severo")) = Done ms.

(** The properties [fuzz_gauss_dolor] writes. *)
Definition fuzz_key (k : string) : Prop :=
  k = "mu_leve" \/ k = "mu_moderado" \/ k = "mu_severo" \/ k = "fuzzy_last_updated".

(** The pain slots [fuzz_gauss_dolor] binds. *)
Definition fuzz_slots (g : Graph) : list nat :=
  match_nodes (fun n => is_dolor_actual n && fuzz_where n) g.

End LogicaDifusaParams.

(** ** Further stores and requests *)

Module MoreScenarios.
Import Store App.

(** Patient 30111222 presents "dolor de tobillo", whose indicator
    "inflamacion" holds a text and whose indicator "dolor" holds 7.5. *)
Definition clinic_textual : Graph :=
  mkGraph
    [ mkNode ["Paciente"] {[ "dni" := VInt 30111222 ]};
      mkNode ["Sintoma"] {[ "nombre" := VStr "dolor de tobillo" ]};
      mkNode ["Indicador"]
        (<["nombre" := VStr "inflamacion"]> {[ "valor" := VStr "moderada" ]});
      mkNode ["Indicador"]
        (<["nombre" := VStr "dolor"]> {[ "valor" := VFloat (75 / 10) ]}) ]
    [ (0, "PRESENTA_SINTOMA", 1); (1, "TIENE_INDICADOR", 2);
      (1, "TIENE_INDICADOR", 3) ]%nat.

(** A request that names the patient and the symptom, for the textual
    indicator. *)
Definition query_textual (sigma : R) : FuzzyQuery :=
  mkFuzzyQuery "inflamacion" None 2 sigma (Some 30111222%Z) (Some "dolor de tobillo").

(** A request that carries a value and the lookup keys as well. *)
Definition query_with_value_and_keys : FuzzyQuery :=
  mkFuzzyQuery "inflamacion" (Some 3) 2 1 (Some 30111222%Z) (Some "dolor de tobillo").

End MoreScenarios.

(** ** Pain slots for the edge cases of the fuzzification *)

Module FuzzScenarios.
Import Store.

(** A pain slot with the value 7.5 that has lost the centre of "leve" but
    still carries an old membership for it, and has no spread for
    "severo". *)
Definition stale_slot : Node :=
  mkNode ["Slot"; "Dolor"]
    (list_to_map
       [ ("slot_name", VStr "dolor_actual");
         ("valor_crisp", VFloat (75 / 10));
         ("funcion_pertenencia", VStr "gaussiana");
         ("mu_leve", VFloat (9 / 10));
         ("b_leve", VFloat (15 / 10));
         ("a_moderado", VFloat 5); ("b_moderado", VFloat (15 / 10));
         ("a_severo", VFloat 8) ]).

Definition stale_store : Graph := mkGraph [stale_slot] [].

(** A pain slot that was never given parameters nor fuzzified, with an
    integer value, next to one without a value. *)
Definition raw_store : Graph :=
  mkGraph
    [ mkNode ["Slot"; "Dolor"]
        (list_to_map [ ("slot_name", VStr "dolor_actual"); ("valor_crisp", VInt 7) ]);
      mkNode ["Slot"; "Dolor"]
        (list_to_map [ ("slot_name", VStr "dolor_actual") ]) ] [].

End FuzzScenarios.

(** ** Wards for the immediate-referral rule *)

Module ReglaScenarios.
Import Store.

(** A patient with a severe "Hematoma", the case the comment above the
    rule describes. *)
Definition hematoma_ward : Graph :=
  mkGraph
    [ mkNode ["Paciente"] {[ "id" := VStr "P-002" ]};
      mkNode ["Sintoma"] (<["nombre" := VStr "Hematoma"]> {[ "intensidad" := VStr "severa" ]}) ]
    [ (0, "PRESENTA_SINTOMA", 1) ]%nat.

(** A patient with an intense "DOLOR" and an alert of the rule that was
    created at time 5 and has been resolved. *)
Definition resolved_ward : Graph :=
  mkGraph
    [ mkNode ["Paciente"] {[ "id" := VStr "P-003" ]};
      mkNode ["Sintoma"] (<["nombre" := VStr "DOLOR"]> {[ "intensidad" := VStr "Intenso" ]});
      mkNode ["Alerta"]
        (<["codigo" := VStr "DERIVACION_INMEDIATA_DOLOR"]>
           (<["created_at" := VDateTime 5]> {[ "resuelta" := VBool true ]})) ]
    [ (0, "PRESENTA_SINTOMA", 1) ]%nat.

End ReglaScenarios.

(** ** logicaDifusa.py: run_many, the splitter of Cypher scripts *)

Module RunMany.

(** A Python [str]: a sequence of Unicode code points. *)
Definition str : Type := list N.

(** The code points of a literal of ASCII characters. *)
Fixpoint lit (s : string) : str :=
  match s with
  | EmptyString => []
  | String c s' => N_of_ascii c :: lit s'
  end.

(** [c.isspace()]: the white space [str.strip()] removes. *)
Definition is_space (c : N) : bool :=
  ((9 <=? c) && (c <=? 13) || (28 <=? c) && (c <=? 32)
   || (c =? 133) || (c =? 160) || (c =? 5760)
   || (8192 <=? c) && (c <=? 8202)
   || (c =? 8232) || (c =? 8233) || (c =? 8239) || (c =? 8287) || (c =? 12288))%N.

(** The line boundaries of [str.splitlines()]. *)
Definition is_linebreak (c : N) : bool :=
  ((10 <=? c) && (c <=? 13) || (28 <=? c) && (c <=? 30)
   || (c =? 133) || (c =? 8232) || (c =? 8233))%N.

Fixpoint lstrip (s : str) : str :=
  match s with
  | [] => []
  | c :: s' => if is_space c then lstrip s' else s
  end.

Definition rstrip (s : str) : str := rev (lstrip (rev s)).

(** [s.strip()] *)
Definition strip (s : str) : str := rstrip (lstrip s).

(** [s.splitlines()]: the lines without their boundaries; a carriage
    return followed by a line feed is one boundary, and a final boundary
    opens no empty line. *)
Fixpoint splitlines (s : str) : list str :=
  match s with
  | [] => []
  | c :: s' =>
      if is_linebreak c then
        [] :: match s' with
              | d :: s'' => if ((c =? 13) && (d =? 10))%N then splitlines s''
                            else splitlines s'
              | [] => splitlines s'
              end
      else
        match splitlines s' with
        | l :: ls => (c :: l) :: ls
        | [] => [[c]]
        end
  end.

(** [s.split(";")]: the parts between the semicolons, empty ones
    included; one part more than there are semicolons. *)
Fixpoint split_semicolon (s : str) : list str :=
  match s with
  | [] => [[]]
  | c :: s' =>
      if (c =? 59)%N then [] :: split_semicolon s'
      else
        match split_semicolon s' with
        | p :: ps => (c :: p) :: ps
        | [] => [[c]]
        end
  end.

(** ["\n".join(l)] *)
Fixpoint join_lines (l : list str) : str :=
  match l with
  | [] => []
  | [x] => x
  | x :: rest => x ++ 10%N :: join_lines rest
  end.

(** [";" in s] *)
Definition has_semicolon (s : str) : bool := existsb (N.eqb 59) s.

(** [s.startswith("//")] *)
Definition is_comment (s : str) : bool :=
  match s with
  | a :: b :: _ => ((a =? 47) && (b =? 47))%N
  | _ => false
  end.

(** Python truth of a [str]. *)
Definition truthy (s : str) : bool :=
  match s with [] => false | _ :: _ => true end.

(** The body of the loop over the lines, on the pair of [statements] and
    [current]. *)
Definition step (acc : list str * list str) (line : str) : list str * list str :=
  let '(statements, current) := acc in
  let stripped := strip line in
  if negb (truthy stripped) then acc
  else if is_comment stripped then acc
  else
    let current := current ++ [line] in
    if has_semicolon line then
      let parts := split_semicolon (join_lines current) in
      let closed := strip <$> removelast parts in
      (statements ++ filter (fun p => truthy p = true) closed,
       if truthy (strip (List.last parts [])) then [List.last parts []] else [])
    else (statements, current).

(** The statements [run_many] builds from a script, before it runs
    them. *)
Definition statements_of (script : str) : list str :=
  let '(statements, current) := fold_left step (splitlines script) ([], []) in
  let tail := strip (join_lines current) in
  if truthy tail then statements ++ [tail] else statements.

(** How a call of [run_many] ends: it returns [results], or a statement
    raises. *)
Inductive Ending : Type :=
| Returned (results : list str)
| Raised.

(** The second loop: each statement in a session of its own, in order.
    [session_run stmt st] is the store after the statement, [None] when it
    raises; what the statements before it have written stays written. *)
Fixpoint run_each {S : Type} (session_run : str -> S -> option S)
    (statements results : list str) (st : S) : S * Ending :=
  match statements with
  | [] => (st, Returned results)
  | stmt :: rest =>
      match session_run stmt st with
      | Some st' => run_each session_run rest (results ++ [stmt]) st'
      | None => (st, Raised)
      end
  end.

(** [run_many(script)] *)
Definition run_many {S : Type} (session_run : str -> S -> option S)
    (script : str) (st : S) : S * Ending :=
  run_each session_run (statements_of script) [] st.

(** What [run_many] hands to a session: not empty, no white space at
    either end, no semicolon. *)
Definition clean_statement (s : str) : Prop :=
  s <> [] /\ strip s = s /\ has_semicolon s = false.

(** What the loop keeps: clean statements in [statements], lines without
    a semicolon in [current]. *)
Definition loop_inv (acc : list str * list str) : Prop :=
  Forall clean_statement acc.1 /\ Forall (fun s => has_semicolon s = false) acc.2.

(** A line the loop passes over: blank, or a comment. *)
Definition skipped (line : str) : bool :=
  negb (truthy (strip line)) || is_comment (strip line).

(** A piece of text inside one line. *)
Definition no_linebreak (s : str) : bool :=
  forallb (fun c => negb (is_linebreak c)) s.

(** A line of a statement: inside one line, not passed over, and without
    a semicolon. *)
Definition plain_line (l : str) : Prop :=
  no_linebreak l = true /\ skipped l = false /\ has_semicolon l = false.

(** A statement written over the lines [b.1 ++ [b.2]]: the text of the
    statement, and its lines in a script, where a semicolon closes the
    last one. *)
Definition written (b : list str * str) : str := join_lines (b.1 ++ [b.2]).

Definition closed_lines (b : list str * str) : list str :=
  b.1 ++ [b.2 ++ [59%N]].

Definition plain_block (b : list str * str) : Prop :=
  Forall plain_line b.1 /\ plain_line b.2.

End RunMany.

(** * Properties *)

(** ** Decimal rounding *)

Module RoundingProps.
Import Rounding.

Lemma pow10_pos (d : nat) : 0 < 10 ^ d.
Proof. apply pow_lt; lra. Qed.

Lemma Int_part_bounds (t : R) : IZR (Int_part t) <= t < IZR (Int_part t) + 1.
Proof. destruct (base_Int_part t); lra. Qed.

Lemma Int_part_eq (t : R) (z : Z) : IZR z <= t < IZR z + 1 -> Int_part t = z.
Proof. intros H; symmetry; apply Int_part_spec; lra. Qed.



(** Dividing a bound on [x * 10^d] by [10^d]. *)
Lemma scaled_bound (x y : R) (d : nat) :
  Rabs (y - x * 10 ^ d) <= 1 / 2 ->
  Rabs (y / 10 ^ d - x) <= 1 / 2 / 10 ^ d.
Proof.
  intros H. pose proof (pow10_pos d) as Hp.
  replace (y / 10 ^ d - x) with ((y - x * 10 ^ d) / 10 ^ d) by (field; lra).
  unfold Rdiv at 1. rewrite Rabs_mult, (Rabs_pos_eq (/ 10 ^ d)).
  - apply Rmult_le_compat_r; [left; apply Rinv_0_lt_compat|]; assumption.
  - left; apply Rinv_0_lt_compat; assumption.
Qed.


Lemma cy_round_close (x : R) (d : nat) :
  Rabs (cy_round x d - x) <= 1 / 2 / 10 ^ d.
Proof.
  unfold cy_round. destruct (Rle_dec 0 x).
  - pose proof (Int_part_bounds (x * 10 ^ d + 1 / 2)).
    apply scaled_bound, Rabs_le; lra.
  - pose proof (Int_part_bounds (- x * 10 ^ d + 1 / 2)).
    replace (- (IZR (Int_part (- x * 10 ^ d + 1 / 2)) / 10 ^ d))
      with ((- IZR (Int_part (- x * 10 ^ d + 1 / 2))) / 10 ^ d)
      by (field; pose proof (pow10_pos d); lra).
    apply scaled_bound, Rabs_le; lra.
Qed.

(** The value of [cy_round] on a non-negative number caught between two
    half-way points. *)
Lemma cy_round_between (x : R) (d : nat) (k : Z) :
  0 <= x ->
  IZR k - 1 / 2 <= x * 10 ^ d < IZR k + 1 / 2 ->
  cy_round x d = IZR k / 10 ^ d.
Proof.
  intros Hx Hk. unfold cy_round. destruct (Rle_dec 0 x); [|lra].
  rewrite (Int_part_eq _ k); [reflexivity | lra].
Qed.

End RoundingProps.

(** ** app.py *)

Module AppProps.
Import Store Rounding RoundingProps App Scenarios.

Example clinic_lookup :
  fetch_indicator_value clinic (mkLookup 30111222 "dolor de tobillo" "edema")
  = Some (VInt 2).
Proof. reflexivity. Qed.

Example clinic_lookup_dni_0 :
  fetch_indicator_value clinic (mkLookup 0 "dolor de tobillo" "edema")
  = Some (VInt 2).
Proof. reflexivity. Qed.

Example clinic_lookup_empty_sintoma :
  fetch_indicator_value clinic (mkLookup 30111222 "" "edema")
  = Some (VStr "moderado").
Proof. reflexivity. Qed.

(** The guard of [gaussian_membership]: a spread that is not positive gives
    0, whatever the value and the centre. *)
Lemma gaussian_membership_degenerate (x mu sigma : R) :
  sigma <= 0 -> gaussian_membership x mu sigma = 0.
Proof.
  intros Hs. unfold gaussian_membership.
  destruct (Rle_dec sigma 0) as [_ | Hn]; [reflexivity | contradiction].
Qed.






(** The value [fuzzy] goes on with, when the request carries none: what
    the lookup gives if it is made, nothing otherwise. *)
Lemma fuzzy_without_valor (g : Graph) (q : FuzzyQuery) :
  valor q = None ->
  truthy_int (dni q) && truthy_str (sintoma q) = false ->
  fuzzy g q = (ErrorPayload no_value_msg, []).
Proof.
  intros Hv Hk. unfold fuzzy. rewrite Hv, Hk. reflexivity.
Qed.

(** C8. A request for which no crisp value can be resolved (none supplied,
    and none obtained from the lookup its keys allow) is answered with the
    error payload: the endpoint neither raises nor returns a score. *)
Theorem fuzzy_unresolved_is_error_payload (g : Graph) (q : FuzzyQuery) :
  valor q = None ->
  (forall z s, dni q = Some z -> sintoma q = Some s ->
     fetch_indicator_value g (mkLookup z s (indicador_nombre q)) = None) ->
  (fuzzy g q).1 = ErrorPayload no_value_msg.
Proof.
  intros Hv Hlook. unfold fuzzy. rewrite Hv.
  destruct (dni q) as [z|] eqn:Hd; [|reflexivity].
  destruct (sintoma q) as [s|] eqn:Hs; [|rewrite andb_false_r; reflexivity].
  destruct (truthy_int (Some z) && truthy_str (Some s)); [|reflexivity].
  cbv [default from_option Datatypes.id].
  rewrite (Hlook z s eq_refl eq_refl). reflexivity.
Qed.

Lemma fuzzy_unresolved_is_error_payload_witness :
  (fuzzy clinic scenario_E).1 = ErrorPayload no_value_msg.
Proof.
  apply (fuzzy_unresolved_is_error_payload clinic scenario_E).
  - reflexivity.
  - intros z s Hd; discriminate Hd.
Defined.

(** A lookup that finds nothing is answered in the same way. *)
Example fuzzy_unresolved_after_lookup :
  fuzzy clinic (mkFuzzyQuery "rigidez" None 2 1 (Some 30111222%Z) (Some "dolor de tobillo"))
  = (ErrorPayload no_value_msg,
     [mkLookup 30111222 "dolor de tobillo" "rigidez"]).
Proof. reflexivity. Qed.

(** C10. When the request carries no value, the store is queried only if
    both [dni] and [sintoma] are present and truthy; with [dni = 0] or an
    empty [sintoma] the answer is the error payload and no query is sent,
    whatever the store holds. *)
Theorem fuzzy_lookup_needs_truthy_keys (g : Graph) (q : FuzzyQuery) :
  valor q = None ->
  ((fuzzy g q).2 <> [] ->
     exists z s, dni q = Some z /\ z <> 0%Z /\ sintoma q = Some s /\ s <> "") /\
  (dni q = Some 0%Z \/ sintoma q = Some "" ->
     fuzzy g q = (ErrorPayload no_value_msg, [])).
Proof.
  intros Hv. split.
  - destruct (truthy_int (dni q) && truthy_str (sintoma q)) eqn:Hk.
    + intros _. apply andb_true_iff in Hk as [Hd Hs].
      destruct (dni q) as [z|]; [|discriminate Hd].
      destruct (sintoma q) as [s|]; [|discriminate Hs].
      exists z, s. cbn in Hd, Hs.
      apply negb_true_iff in Hd, Hs.
      apply Z.eqb_neq in Hd. apply String.eqb_neq in Hs. auto.
    + rewrite (fuzzy_without_valor g q Hv Hk). intros H; contradiction H; reflexivity.
  - intros Hz. apply fuzzy_without_valor; [assumption|].
    destruct Hz as [-> | ->]; [reflexivity | apply andb_false_r].
Qed.

Lemma fuzzy_lookup_needs_truthy_keys_witness :
  fetch_indicator_value clinic (mkLookup 0 "dolor de tobillo" "edema") = Some (VInt 2)
  /\ fuzzy clinic query_dni_0 = (ErrorPayload no_value_msg, []).
Proof.
  split; [reflexivity|].
  apply (fuzzy_lookup_needs_truthy_keys clinic query_dni_0); [reflexivity|].
  left; reflexivity.
Defined.

Lemma gaussian_membership_on_number (v : Value) (x mu sigma : R) :
  py_number v = Some x ->
  gaussian_membership_on v mu sigma = Some (gaussian_membership x mu sigma).
Proof.
  intros Hv. unfold gaussian_membership_on. rewrite Hv. cbn.
  destruct (Rle_dec sigma 0) as [Hs|_]; [|reflexivity].
  rewrite gaussian_membership_degenerate by exact Hs. reflexivity.
Qed.

(** The score of a successful answer: the membership of the resolved value,
    rounded to 4 decimals. *)
Lemma fuzzy_payload_pertenencia (g : Graph) (q : FuzzyQuery)
    (ind : string) (v : Value) (m s p : R) :
  (fuzzy g q).1 = Payload ind v m s p ->
  exists mu, gaussian_membership_on v m s = Some mu /\ m = media q /\ s = sigma q /\
             p = py_round mu 4.
Proof.
  unfold fuzzy.
  destruct (valor q) as [r|].
  - destruct (gaussian_membership_on (VFloat r) (media q) (sigma q)) as [mu|] eqn:Hmu;
      [|discriminate].
    cbn. intros [= <- <- <- <- <-]. eauto.
  - destruct (truthy_int (dni q) && truthy_str (sintoma q)).
    + destruct (fetch_indicator_value g _) as [w|]; [|discriminate].
      destruct (gaussian_membership_on w (media q) (sigma q)) as [mu|] eqn:Hmu;
        [|discriminate].
      cbn. intros [= <- <- <- <- <-]. eauto.
    + discriminate.
Qed.

End AppProps.

(** ** The graph store *)

Module StoreProps.
Import Store.

Lemma find_from_spec (p : Node -> bool) (l : list Node) (i j : nat) :
  j ∈ find_from p i l <->
  (i <= j)%nat /\ exists n, l !! (j - i)%nat = Some n /\ p n = true.
Proof.
  revert i. induction l as [|n l IH]; intros i; cbn [find_from].
  - split; [intros H; inversion H | intros (_ & n & Hn & _); discriminate Hn].
  - assert (Hrec : j ∈ find_from p (S i) l <->
                   (i < j)%nat /\ exists m, l !! (j - S i)%nat = Some m /\ p m = true).
    { rewrite IH. split; intros [? ?]; split; auto; lia. }
    destruct (p n) eqn:Hp; rewrite ?elem_of_cons, Hrec; split.
    + intros [-> | (Hlt & m & Hm & Hpm)].
      * split; [lia|]. exists n. rewrite Nat.sub_diag. auto.
      * split; [lia|]. exists m. split; [|assumption].
        replace (j - i)%nat with (S (j - S i)) by lia. assumption.
    + intros (Hle & m & Hm & Hpm).
      destruct (decide (j = i)) as [->|Hne]; [left; reflexivity | right].
      split; [lia|]. exists m. split; [|assumption].
      replace (j - i)%nat with (S (j - S i)) in Hm by lia. assumption.
    + intros (Hlt & m & Hm & Hpm). split; [lia|]. exists m. split; [|assumption].
      replace (j - i)%nat with (S (j - S i)) by lia. assumption.
    + intros (Hle & m & Hm & Hpm).
      destruct (decide (j = i)) as [->|Hne].
      * rewrite Nat.sub_diag in Hm. cbn in Hm. congruence.
      * split; [lia|]. exists m. split; [|assumption].
        replace (j - i)%nat with (S (j - S i)) in Hm by lia. assumption.
Qed.

Lemma match_nodes_spec (p : Node -> bool) (g : Graph) (j : nat) :
  j ∈ match_nodes p g <-> exists n, node_at g j = Some n /\ p n = true.
Proof.
  unfold match_nodes, node_at. rewrite find_from_spec, Nat.sub_0_r.
  split; [intros [_ H]; exact H | intros H; split; [lia | exact H]].
Qed.

Lemma find_from_NoDup (p : Node -> bool) (l : list Node) (i : nat) :
  NoDup (find_from p i l).
Proof.
  revert i. induction l as [|n l IH]; intros i; cbn [find_from].
  - constructor.
  - destruct (p n); [|apply IH].
    constructor; [|apply IH].
    rewrite find_from_spec. lia.
Qed.

Lemma match_nodes_NoDup (p : Node -> bool) (g : Graph) : NoDup (match_nodes p g).
Proof. apply find_from_NoDup. Qed.

(** Matching looks at the nodes through [p] only. *)
Lemma find_from_ext (p q : Node -> bool) (l l' : list Node) (i : nat) :
  Forall2 (fun n n' => p n = q n') l l' ->
  find_from p i l = find_from q i l'.
Proof.
  intros H. revert i. induction H as [|n n' l l' Hn _ IH]; intros i; cbn [find_from].
  - reflexivity.
  - rewrite Hn, IH. reflexivity.
Qed.

Lemma find_from_app (p : Node -> bool) (l l' : list Node) (i : nat) :
  find_from p i (l ++ l') = find_from p i l ++ find_from p (i + length l) l'.
Proof.
  revert i. induction l as [|n l IH]; intros i; cbn [find_from app length].
  - rewrite Nat.add_0_r. reflexivity.
  - rewrite IH. replace (S i + length l)%nat with (i + S (length l))%nat by lia.
    destruct (p n); reflexivity.
Qed.

Lemma match_nodes_lt (p : Node -> bool) (g : Graph) (j : nat) :
  j ∈ match_nodes p g -> (j < length (nodes g))%nat.
Proof.
  rewrite match_nodes_spec. intros (n & Hn & _).
  apply lookup_lt_Some in Hn. exact Hn.
Qed.

(** *** SET *)

Lemma set_prop_rels (i : nat) (k : string) (v : option Value) (g : Graph) :
  rels (set_prop i k v g) = rels g.
Proof. unfold set_prop. destruct (nodes g !! i); reflexivity. Qed.

Lemma set_prop_length (i : nat) (k : string) (v : option Value) (g : Graph) :
  length (nodes (set_prop i k v g)) = length (nodes g).
Proof.
  unfold set_prop. destruct (nodes g !! i); [|reflexivity].
  cbn. apply length_insert.
Qed.

Lemma node_at_set_prop_ne (i j : nat) (k : string) (v : option Value) (g : Graph) :
  i <> j -> node_at (set_prop i k v g) j = node_at g j.
Proof.
  intros Hne. unfold set_prop, node_at.
  destruct (nodes g !! i); [|reflexivity].
  cbn. apply list_lookup_insert_ne. exact Hne.
Qed.

Lemma node_at_set_prop_eq (i : nat) (k : string) (v : option Value) (g : Graph) (n : Node) :
  node_at g i = Some n ->
  node_at (set_prop i k v g) i = Some (set_node_prop k v n).
Proof.
  intros Hn. unfold set_prop, node_at in *. rewrite Hn. cbn.
  apply list_lookup_insert_eq. apply lookup_lt_Some in Hn. exact Hn.
Qed.

Lemma node_at_set_prop (i j : nat) (k : string) (v : option Value) (g : Graph) :
  node_at (set_prop i k v g) j
  = if decide (i = j) then set_node_prop k v <$> node_at g j else node_at g j.
Proof.
  destruct (decide (i = j)) as [<-|Hne].
  - destruct (node_at g i) as [n|] eqn:Hn.
    + apply node_at_set_prop_eq. exact Hn.
    + unfold set_prop, node_at in *. rewrite Hn. cbn. exact Hn.
  - apply node_at_set_prop_ne. exact Hne.
Qed.

Lemma prop_set_node_prop_eq (k : string) (v : option Value) (n : Node) :
  prop (set_node_prop k v n) k = v.
Proof.
  unfold prop, set_node_prop; cbn.
  destruct v; [apply lookup_insert_eq | apply lookup_delete_eq].
Qed.

Lemma prop_set_node_prop_ne (k k' : string) (v : option Value) (n : Node) :
  k <> k' -> prop (set_node_prop k v n) k' = prop n k'.
Proof.
  intros Hk. unfold prop, set_node_prop; cbn.
  destruct v; [apply lookup_insert_ne | apply lookup_delete_ne]; exact Hk.
Qed.

Lemma get_prop_set_prop_eq (i : nat) (k : string) (v : option Value) (g : Graph) :
  (i < length (nodes g))%nat -> get_prop (set_prop i k v g) i k = v.
Proof.
  intros Hi. apply lookup_lt_is_Some in Hi as [n Hn].
  unfold get_prop. rewrite (node_at_set_prop_eq i k v g n Hn). cbn.
  apply prop_set_node_prop_eq.
Qed.

Lemma get_prop_set_prop_ne (i j : nat) (k k' : string) (v : option Value) (g : Graph) :
  i <> j \/ k <> k' -> get_prop (set_prop i k v g) j k' = get_prop g j k'.
Proof.
  intros Hne. unfold get_prop. rewrite node_at_set_prop.
  destruct (decide (i = j)) as [<-|Hij]; [|reflexivity].
  destruct Hne as [Hne|Hk]; [contradiction Hne; reflexivity|].
  destruct (node_at g i) as [n|]; [|reflexivity]. cbn.
  apply prop_set_node_prop_ne. exact Hk.
Qed.

Lemma match_nodes_set_prop (p : Node -> bool) (i : nat) (k : string)
    (v : option Value) (g : Graph) :
  ignores k p -> match_nodes p (set_prop i k v g) = match_nodes p g.
Proof.
  intros Hp. unfold match_nodes, set_prop.
  destruct (nodes g !! i) as [n|] eqn:Hn; [|reflexivity]. cbn.
  apply find_from_ext.
  apply Forall2_same_length_lookup. split; [apply length_insert|].
  intros j a b Ha Hb.
  destruct (decide (i = j)) as [<-|Hij].
  - rewrite list_lookup_insert_eq in Ha by (apply lookup_lt_Some in Hn; exact Hn).
    injection Ha as <-. rewrite Hp. congruence.
  - rewrite list_lookup_insert_ne in Ha by exact Hij. congruence.
Qed.

Lemma has_label_set_node_prop (l k : string) (v : option Value) (n : Node) :
  has_label l (set_node_prop k v n) = has_label l n.
Proof. reflexivity. Qed.

Lemma has_labels_set_node_prop (ls : list string) (k : string) (v : option Value) (n : Node) :
  has_labels ls (set_node_prop k v n) = has_labels ls n.
Proof. reflexivity. Qed.

Lemma prop_is_str_set_node_prop (k k' lit : string) (v : option Value) (n : Node) :
  k <> k' -> prop_is_str (set_node_prop k v n) k' lit = prop_is_str n k' lit.
Proof.
  intros Hk. unfold prop_is_str. rewrite prop_set_node_prop_ne by exact Hk.
  reflexivity.
Qed.

(** *** CREATE *)

Lemma node_at_add_node_lt (n : Node) (g : Graph) (j : nat) :
  (j < length (nodes g))%nat -> node_at (add_node n g) j = node_at g j.
Proof. intros Hj. unfold node_at, add_node; cbn. apply lookup_app_l. exact Hj. Qed.

Lemma node_at_add_node_new (n : Node) (g : Graph) :
  node_at (add_node n g) (length (nodes g)) = Some n.
Proof.
  unfold node_at, add_node; cbn.
  rewrite lookup_app_r by lia. rewrite Nat.sub_diag. reflexivity.
Qed.

Lemma match_nodes_add_node (p : Node -> bool) (n : Node) (g : Graph) :
  match_nodes p (add_node n g)
  = match_nodes p g ++ (if p n then [length (nodes g)] else []).
Proof.
  unfold match_nodes, add_node; cbn. rewrite find_from_app. cbn.
  destruct (p n); reflexivity.
Qed.

End StoreProps.

(** ** logicaDifusa.py: the entropy *)

Module EntropyProps.
Import Store Rounding RoundingProps LogicaDifusa StoreProps.

Lemma ln_3_pos : 0 < ln 3.
Proof. rewrite <- ln_1. apply ln_increasing; lra. Qed.

Lemma ln_nonpos (r : R) : 0 < r <= 1 -> ln r <= 0.
Proof.
  intros [Hr [Hlt | ->]].
  - rewrite <- ln_1. left. apply ln_increasing; assumption.
  - rewrite ln_1. lra.
Qed.

(** [-(r ln r)] is at most [1/e]: from [1 + t <= exp t] at
    [t = -1 - ln r]. *)
Lemma neg_r_ln_r_le (r : R) : 0 < r -> - (r * ln r) <= exp (-1).
Proof.
  intros Hr.
  pose proof (exp_ineq1_le (-1 + - ln r)) as H.
  rewrite exp_plus, exp_Ropp, exp_ln in H by assumption.
  assert (Hm : r * (- ln r) <= r * (exp (-1) * / r)).
  { apply Rmult_le_compat_l; lra. }
  replace (r * (exp (-1) * / r)) with (exp (-1)) in Hm by (field; lra).
  lra.
Qed.

Lemma entropy_term_bounds (m : Value) :
  is_degree m -> 0 <= entropy_term m <= exp (-1).
Proof.
  intros (r & Hm & Hr). unfold entropy_term. rewrite Hm.
  pose proof (exp_pos (-1)).
  destruct (Rlt_dec 0 r) as [Hpos|_]; [|lra].
  split; [|apply neg_r_ln_r_le; assumption].
  pose proof (ln_nonpos r ltac:(lra)). nra.
Qed.

Lemma Hnorm_3 (u1 u2 u3 : Value) :
  Hnorm [u1; u2; u3]
  = (entropy_term u1 + entropy_term u2 + entropy_term u3) / ln 3.
Proof. unfold Hnorm. cbn [fold_left]. f_equal. lra. Qed.

Lemma entropy_term_0 : entropy_term (VFloat 0) = 0.
Proof.
  unfold entropy_term; cbn [as_number].
  destruct (Rlt_dec 0 0); [lra | reflexivity].
Qed.

Lemma entropy_term_3_8 : entropy_term (VFloat (3 / 8)) = 3 / 8 * ln (8 / 3).
Proof.
  unfold entropy_term; cbn [as_number].
  destruct (Rlt_dec 0 (3 / 8)); [|lra].
  replace (8 / 3) with (/ (3 / 8)) by field.
  rewrite ln_Rinv by lra. lra.
Qed.

Lemma entropy_term_1 : entropy_term (VFloat 1) = 0.
Proof.
  unfold entropy_term; cbn [as_number].
  destruct (Rlt_dec 0 1); [|lra]. rewrite ln_1. lra.
Qed.

(** Scenario C: the entropy of (1, 0, 0) is 0. *)
Example scenario_C : Hnorm [VFloat 1; VFloat 0; VFloat 0] = 0.
Proof.
  rewrite Hnorm_3, entropy_term_1, entropy_term_0. unfold Rdiv. lra.
Qed.

(** The bound [3 / (e ln 3)] is reached at (1/e, 1/e, 1/e). *)
Lemma entropy_bound_attained :
  Hnorm [VFloat (exp (-1)); VFloat (exp (-1)); VFloat (exp (-1))]
  = 3 * exp (-1) / ln 3.
Proof.
  assert (Ht : entropy_term (VFloat (exp (-1))) = exp (-1)).
  { unfold entropy_term; cbn [as_number]. pose proof (exp_pos (-1)).
    destruct (Rlt_dec 0 (exp (-1))); [|lra]. rewrite ln_exp. lra. }
  rewrite Hnorm_3, Ht. f_equal. lra.
Qed.

(** The vector (3/8, 3/8, 3/8) has entries in [0,1] and a normalized
    entropy above 1: [9 ln(8/3) > 8 ln 3] because [8^9 > 3^17]. *)
Lemma entropy_above_one :
  is_degree (VFloat (3 / 8)) /\
  ~ (0 <= Hnorm [VFloat (3 / 8); VFloat (3 / 8); VFloat (3 / 8)] <= 1).
Proof.
  split.
  - exists (3 / 8). split; [reflexivity | lra].
  - intros [_ Hle]. rewrite Hnorm_3, entropy_term_3_8 in Hle.
    pose proof ln_3_pos as H3.
    assert (Hpow : ln (3 ^ 8) < ln ((8 / 3) ^ 9)).
    { apply ln_increasing; lra. }
    rewrite !ln_pow in Hpow by lra.
    cbn [INR] in Hpow.
    assert (Hmul : (3 / 8 * ln (8 / 3) + 3 / 8 * ln (8 / 3) + 3 / 8 * ln (8 / 3)) / ln 3
                   * ln 3 <= 1 * ln 3).
    { apply Rmult_le_compat_r; lra. }
    unfold Rdiv in Hmul at 1. rewrite Rmult_assoc, Rinv_l, Rmult_1_r in Hmul by lra.
    lra.
Qed.

(** C1, amended. For a vector of three degrees in [0,1] the normalized
    entropy lies between 0 and [3 / (e ln 3)], and it is 0 for the
    all-zero vector. *)
Theorem entropy_bounds (u1 u2 u3 : Value) :
  is_degree u1 -> is_degree u2 -> is_degree u3 ->
  0 <= Hnorm [u1; u2; u3] <= 3 * exp (-1) / ln 3
  /\ Hnorm [VFloat 0; VFloat 0; VFloat 0] = 0.
Proof.
  intros H1 H2 H3.
  apply entropy_term_bounds in H1, H2, H3.
  pose proof ln_3_pos as Hl.
  rewrite !Hnorm_3, entropy_term_0. split; [split|].
  - apply Rmult_le_pos; [lra | left; apply Rinv_0_lt_compat; exact Hl].
  - apply Rmult_le_compat_r; [left; apply Rinv_0_lt_compat; exact Hl | lra].
  - unfold Rdiv. lra.
Qed.

Lemma entropy_bounds_witness :
  is_degree (VFloat 1) /\ is_degree (VFloat 0) /\
  (0 <= Hnorm [VFloat 1; VFloat 0; VFloat 0] <= 3 * exp (-1) / ln 3
   /\ Hnorm [VFloat 0; VFloat 0; VFloat 0] = 0).
Proof.
  assert (H1 : is_degree (VFloat 1)) by (exists 1; split; [reflexivity | lra]).
  assert (H0 : is_degree (VFloat 0)) by (exists 0; split; [reflexivity | lra]).
  split; [exact H1 | split; [exact H0|]].
  exact (entropy_bounds (VFloat 1) (VFloat 0) (VFloat 0) H1 H0 H0).
Defined.

End EntropyProps.

(** ** logicaDifusa.py: the fuzzification *)

Module FuzzProps.
Import Store Rounding RoundingProps App LogicaDifusa StoreProps Scenarios.

Lemma exp_INR_mult (n : nat) (x : R) : exp (INR n * x) = exp x ^ n.
Proof.
  induction n as [|n IH].
  - cbn. rewrite Rmult_0_l. apply exp_0.
  - rewrite S_INR, Rmult_plus_distr_r, Rmult_1_l, exp_plus, IH. cbn. ring.
Qed.

(** [(1 - x/n)^n <= exp (-x) <= 1 / (1 + x/n)^n], from [1 + t <= exp t]. *)
Lemma exp_neg_bounds (n : nat) (x : R) :
  (0 < n)%nat -> 0 <= x <= INR n ->
  (1 - x / INR n) ^ n <= exp (- x) <= / (1 + x / INR n) ^ n.
Proof.
  intros Hn Hx.
  assert (Hn' : 0 < INR n) by (apply lt_0_INR; exact Hn).
  assert (Hq : 0 <= x / INR n <= 1).
  { split.
    - apply Rmult_le_pos; [lra | left; apply Rinv_0_lt_compat; exact Hn'].
    - apply (Rmult_le_reg_r (INR n)); [exact Hn'|].
      unfold Rdiv. rewrite Rmult_assoc, Rinv_l by lra. lra. }
  split.
  - replace (- x) with (INR n * (- (x / INR n))) by (field; lra).
    rewrite exp_INR_mult. apply pow_incr.
    pose proof (exp_ineq1_le (- (x / INR n))). lra.
  - rewrite exp_Ropp.
    replace x with (INR n * (x / INR n)) at 1 by (field; lra).
    rewrite exp_INR_mult.
    apply Rinv_le_contravar; [apply pow_lt; lra|].
    apply pow_incr. pose proof (exp_ineq1_le (x / INR n)). lra.
Qed.

(** Scenario A on the real line: [exp (-25/288)] is 0.9168... *)
Lemma scenario_A_bounds : 9165 / 10000 <= exp (- (25 / 288)) < 9175 / 10000.
Proof.
  assert (H16 : (0 < 16)%nat) by lia.
  assert (E16 : INR 16 = 16) by (rewrite INR_IZR_INZ; reflexivity).
  assert (Hx : 0 <= 25 / 288 <= INR 16) by (rewrite E16; lra).
  pose proof (exp_neg_bounds 16 (25 / 288) H16 Hx) as [Hlo Hhi].
  rewrite E16 in Hlo, Hhi.
  split.
  - eapply Rle_trans; [|exact Hlo]. lra.
  - eapply Rle_lt_trans; [exact Hhi|].
    assert (Hp : 10000 / 9175 < (1 + 25 / 288 / 16) ^ 16) by lra.
    apply (Rmult_lt_reg_r ((1 + 25 / 288 / 16) ^ 16)); [lra|].
    rewrite Rinv_l by lra. lra.
Qed.

Lemma scenario_A_value :
  gaussian_membership (75 / 10) 8 (12 / 10) = exp (- (25 / 288)).
Proof.
  unfold gaussian_membership. destruct (Rle_dec (12 / 10) 0); [lra|].
  f_equal. field.
Qed.

Lemma scenario_A_rounded :
  cy_round (gaussian_membership (75 / 10) 8 (12 / 10)) 3 = 917 / 1000.
Proof.
  rewrite scenario_A_value. pose proof scenario_A_bounds as Hb.
  rewrite (cy_round_between _ 3 917); [lra | lra | lra].
Qed.

(** Scenario A does not give 0.851: the membership of 7.5 in the category
    of centre 8.0 and spread 1.2, rounded to 3 decimals, is another
    number. *)
Lemma scenario_A_is_not_0851 :
  cy_round (gaussian_membership (75 / 10) 8 (12 / 10)) 3 <> 851 / 1000.
Proof. rewrite scenario_A_rounded. lra. Qed.

(** *** Running the statement *)

Lemma gauss_expr_done (x a b : R) :
  b <> 0 -> gauss_expr x a b = Done (exp (- ((x - a) * (x - a)) / (2 * (b * b)))).
Proof.
  intros Hb. unfold gauss_expr.
  destruct (Req_dec_T (2 * (b * b)) 0) as [H0|_]; [|reflexivity].
  exfalso. assert (b * b = 0) as Hbb by lra.
  apply Rmult_integral in Hbb. tauto.
Qed.

(** A negative spread is squared away: the Cypher expression gives a
    positive membership, and 1 on the centre. *)
Lemma gauss_expr_negative_spread (x a b : R) :
  b < 0 ->
  (exists m, gauss_expr x a b = Done m /\ 0 < m) /\ gauss_expr a a b = Done 1.
Proof.
  intros Hb. rewrite !gauss_expr_done by lra. split.
  - eexists. split; [reflexivity | apply exp_pos].
  - f_equal. replace (- ((a - a) * (a - a)) / (2 * (b * b))) with 0.
    + apply exp_0.
    + field. lra.
Qed.

Lemma membership_expr_floats (x a b : R) :
  b <> 0 ->
  membership_expr (VFloat x) (Some (VFloat a)) (VFloat b)
  = Done (Some (exp (- ((x - a) * (x - a)) / (2 * (b * b))))).
Proof.
  intros Hb. unfold membership_expr. cbn [as_number].
  rewrite (gauss_expr_done x a b Hb). reflexivity.
Qed.

(** The WITH, SET and RETURN clauses on a slot whose three memberships
    evaluate. *)
Lemma fuzz_slot_done (now i : nat) (g : Graph) (s : Node) (x : Value)
    (ml mm ms : option R) :
  node_at g i = Some s ->
  prop s "valor_crisp" = Some x ->
  membership_expr x (prop s "a_leve")
    (default (VFloat (1 / 10 ^ 6)) (prop s "b_leve")) = Done ml ->
  membership_expr x (prop s "a_moderado")
    (default (VFloat (1 / 10 ^ 6)) (prop s "b_moderado")) = Done mm ->
  membership_expr x (prop s "a_severo")
    (default (VFloat (1 / 10 ^ 6)) (prop s "b_severo")) = Done ms ->
  fuzz_slot now i g
  = Done (set_prop i "fuzzy_last_updated" (Some (VDateTime now))
            (set_prop i "mu_severo" (float_prop ms)
               (set_prop i "mu_moderado" (float_prop mm)
                  (set_prop i "mu_leve" (float_prop ml) g))),
          [mkFuzzRow (prop s "slot_name") x
             ((fun m => cy_round m 3) <$> ml)
             ((fun m => cy_round m 3) <$> mm)
             ((fun m => cy_round m 3) <$> ms)]).
Proof.
  intros Hs Hx Hl Hm Hsv. unfold fuzz_slot.
  rewrite Hs, Hx, Hl, Hm, Hsv. reflexivity.
Qed.

(** The stored "severo" membership after the statement body. *)
Lemma fuzz_slot_stores (now i : nat) (g : Graph) (ml mm ms : option R) :
  (i < length (nodes g))%nat ->
  get_prop (set_prop i "fuzzy_last_updated" (Some (VDateTime now))
              (set_prop i "mu_severo" (float_prop ms)
                 (set_prop i "mu_moderado" (float_prop mm)
                    (set_prop i "mu_leve" (float_prop ml) g)))) i "mu_severo"
  = float_prop ms.
Proof.
  intros Hi.
  rewrite get_prop_set_prop_ne by (right; discriminate).
  apply get_prop_set_prop_eq. rewrite !set_prop_length. exact Hi.
Qed.

(** The statement on a store whose only pain slot is the first node, with
    float parameters and spreads that are not 0. *)
Lemma fuzz_gauss_dolor_on (now : nat) (x a b : R) (rest : list Node) (es : list Rel) :
  b <> 0 ->
  match_nodes (fun n => is_dolor_actual n && fuzz_where n)
    (mkGraph (dolor_slot x a b :: rest) es) = [0%nat] ->
  exists g' row,
    fuzz_gauss_dolor now (mkGraph (dolor_slot x a b :: rest) es) = Done (g', [row])
    /\ get_prop g' 0 "mu_severo"
       = Some (VFloat (exp (- ((x - a) * (x - a)) / (2 * (b * b)))))
    /\ fz_mu_severo row
       = Some (cy_round (exp (- ((x - a) * (x - a)) / (2 * (b * b)))) 3).
Proof.
  intros Hb Hrows. unfold fuzz_gauss_dolor. rewrite Hrows. cbn [for_each].
  rewrite (fuzz_slot_done now 0 _ (dolor_slot x a b) (VFloat x)
             (Some (exp (- ((x - 2) * (x - 2)) / (2 * (15 / 10 * (15 / 10))))))
             (Some (exp (- ((x - 5) * (x - 5)) / (2 * (15 / 10 * (15 / 10))))))
             (Some (exp (- ((x - a) * (x - a)) / (2 * (b * b)))))).
  - cbn [mbind outcome_bind fst snd app].
    eexists _, _. split; [reflexivity|]. split.
    + rewrite fuzz_slot_stores by (cbn; lia). reflexivity.
    + reflexivity.
  - reflexivity.
  - reflexivity.
  - apply (membership_expr_floats x 2 (15 / 10)). lra.
  - apply (membership_expr_floats x 5 (15 / 10)). lra.
  - apply (membership_expr_floats x a b). exact Hb.
Qed.

(** C6, amended. The membership of 7.5 in the category of centre 8.0 and
    spread 1.2 is 0.917 to 3 decimals, for [gaussian_membership] and in
    the row [fuzz_gauss_dolor] returns on the seed. *)
Theorem scenario_A_membership_is_0917 (now : nat) :
  cy_round (gaussian_membership (75 / 10) 8 (12 / 10)) 3 = 917 / 1000
  /\ exists g' row,
       fuzz_gauss_dolor now seed = Done (g', [row])
       /\ fz_mu_severo row = Some (917 / 1000).
Proof.
  split; [exact scenario_A_rounded|].
  destruct (fuzz_gauss_dolor_on now (75 / 10) 8 (12 / 10) [mejora_slot (7 / 10)] [])
    as (g' & row & Hrun & _ & Hrow); [lra | reflexivity |].
  exists g', row. split; [exact Hrun|].
  rewrite Hrow. f_equal.
  replace (- ((75 / 10 - 8) * (75 / 10 - 8)) / (2 * (12 / 10 * (12 / 10))))
    with (- (25 / 288)) by field.
  pose proof scenario_A_bounds as Hb.
  rewrite (cy_round_between _ 3 917); [lra | lra | lra].
Qed.

(** C3, at the failing input. On a pain slot whose "severo" category has
    spread -1.2 and whose crisp value 8.0 is the centre, [fuzz_gauss_dolor]
    stores the membership 1 and returns 1, where [gaussian_membership]
    gives 0. *)
Theorem fuzz_gauss_dolor_negative_spread (now : nat) :
  gaussian_membership 8 8 (- (12 / 10)) = 0
  /\ exists g' row,
       fuzz_gauss_dolor now seed_negative_spread = Done (g', [row])
       /\ get_prop g' 0 "mu_severo" = Some (VFloat 1)
       /\ fz_mu_severo row = Some 1.
Proof.
  split; [apply AppProps.gaussian_membership_degenerate; lra|].
  destruct (fuzz_gauss_dolor_on now 8 8 (- (12 / 10)) [mejora_slot (7 / 10)] [])
    as (g' & row & Hrun & Hst & Hrow); [lra | reflexivity |].
  assert (He : exp (- ((8 - 8) * (8 - 8)) / (2 * (- (12 / 10) * - (12 / 10)))) = 1).
  { replace (- ((8 - 8) * (8 - 8)) / (2 * (- (12 / 10) * - (12 / 10)))) with 0 by field.
    apply exp_0. }
  rewrite He in Hst, Hrow.
  exists g', row. split; [exact Hrun|]. split; [exact Hst|].
  rewrite Hrow. f_equal.
  rewrite (cy_round_between 1 3 1000); [lra | lra | lra].
Qed.

End FuzzProps.

(** ** logicaDifusa.py: the high-risk rule *)

Module RuleProps.
Import Store LogicaDifusa StoreProps Scenarios.

Lemma is_alerta_ignores (k code : string) :
  k <> "codigo" -> ignores k (is_alerta code).
Proof.
  intros Hk v n. unfold is_alerta.
  rewrite has_label_set_node_prop, prop_is_str_set_node_prop by exact Hk.
  reflexivity.
Qed.

Lemma is_dolor_actual_ignores (k : string) :
  k <> "slot_name" -> ignores k is_dolor_actual.
Proof.
  intros Hk v n. unfold is_dolor_actual.
  rewrite has_labels_set_node_prop, prop_is_str_set_node_prop by exact Hk.
  reflexivity.
Qed.

Lemma is_mejora_observada_ignores (k : string) :
  k <> "slot_name" -> ignores k is_mejora_observada.
Proof.
  intros Hk v n. unfold is_mejora_observada.
  rewrite has_labels_set_node_prop, prop_is_str_set_node_prop by exact Hk.
  reflexivity.
Qed.

(** *** MERGE of the alert node *)

Lemma merge_node_found (code : string) (f : gmap string Value -> gmap string Value)
    (g : Graph) :
  alertas code g <> [] ->
  merge_node "Alerta" "codigo" code f g = (g, alertas code g).
Proof.
  intros Hne. unfold merge_node.
  change (match_nodes _ g) with (alertas code g).
  destruct (alertas code g); [contradiction Hne; reflexivity | reflexivity].
Qed.

Lemma merge_node_new (code : string) (f : gmap string Value -> gmap string Value)
    (g : Graph) :
  alertas code g = [] ->
  merge_node "Alerta" "codigo" code f g
  = (add_node (mkNode ["Alerta"] (f {[ "codigo" := VStr code ]})) g,
     [length (nodes g)]).
Proof.
  intros He. unfold merge_node.
  change (match_nodes _ g) with (alertas code g).
  rewrite He. reflexivity.
Qed.

(** After MERGE the bound positions are the Alert records of the code,
    and there is at least one. *)
Lemma merge_node_binds (code : string) (f : gmap string Value -> gmap string Value)
    (g : Graph) :
  is_alerta code (mkNode ["Alerta"] (f {[ "codigo" := VStr code ]})) = true ->
  (merge_node "Alerta" "codigo" code f g).2
  = alertas code (merge_node "Alerta" "codigo" code f g).1
  /\ (merge_node "Alerta" "codigo" code f g).2 <> [].
Proof.
  intros Hnew. destruct (alertas code g) as [|a l] eqn:Ha.
  - rewrite merge_node_new by exact Ha. cbn [fst snd].
    unfold alertas in *. rewrite match_nodes_add_node, Ha, Hnew.
    split; [reflexivity | discriminate].
  - rewrite merge_node_found by (rewrite Ha; discriminate).
    cbn [fst snd]. rewrite Ha. split; [reflexivity | discriminate].
Qed.

Lemma new_alert_is_alerta (code : string) :
  is_alerta code (mkNode ["Alerta"] {[ "codigo" := VStr code ]}) = true.
Proof.
  unfold is_alerta, has_label, prop_is_str, prop. cbn [labels props existsb].
  rewrite lookup_singleton_eq, !String.eqb_refl. reflexivity.
Qed.

(** *** SET on the bound alerts *)

Lemma node_at_riesgo_alto_set (now al : nat) (g : Graph) (j : nat) :
  node_at (riesgo_alto_set now al g) j
  = if decide (al = j) then alert_fields now <$> node_at g j else node_at g j.
Proof.
  unfold riesgo_alto_set. rewrite !node_at_set_prop.
  destruct (decide (al = j)); [|reflexivity].
  destruct (node_at g j); reflexivity.
Qed.

(** What no SET of the rule can change stays as it is. *)
Lemma riesgo_alto_set_preserves {X : Type} (phi : Graph -> X) :
  (forall i k v g, alert_key k -> phi (set_prop i k v g) = phi g) ->
  forall now al g, phi (riesgo_alto_set now al g) = phi g.
Proof.
  intros Hphi now al g. unfold riesgo_alto_set, alert_key in *.
  rewrite !Hphi by tauto. reflexivity.
Qed.

Lemma set_all_preserves {X : Type} (phi : Graph -> X) :
  (forall i k v g, alert_key k -> phi (set_prop i k v g) = phi g) ->
  forall now als g,
    phi (fold_left (fun h al => riesgo_alto_set now al h) als g) = phi g.
Proof.
  intros Hphi now als. induction als as [|a l IH]; intros g; cbn [fold_left].
  - reflexivity.
  - rewrite IH. apply riesgo_alto_set_preserves. exact Hphi.
Qed.

Lemma node_at_set_all (now : nat) (als : list nat) (g : Graph) (j : nat) :
  NoDup als ->
  node_at (fold_left (fun h al => riesgo_alto_set now al h) als g) j
  = if decide (j ∈ als) then alert_fields now <$> node_at g j else node_at g j.
Proof.
  intros Hnd. revert g. induction Hnd as [|a l Ha Hnd IH]; intros g; cbn [fold_left].
  - destruct (decide (j ∈ [])) as [H|_]; [inversion H | reflexivity].
  - rewrite IH, node_at_riesgo_alto_set.
    destruct (decide (a = j)) as [<-|Hne].
    + destruct (decide (a ∈ l)); [contradiction|].
      destruct (decide (a ∈ a :: l)) as [_|Hn]; [reflexivity|].
      contradiction Hn. left.
    + destruct (decide (j ∈ l)) as [Hin|Hnin];
        destruct (decide (j ∈ a :: l)) as [Hin'|Hnin']; try reflexivity.
      * contradiction Hnin'. right. exact Hin.
      * apply elem_of_cons in Hin' as [->|Hin']; [contradiction Hne; reflexivity|].
        contradiction.
Qed.

Lemma alertas_set_prop (code : string) (i : nat) (k : string) (v : option Value)
    (g : Graph) :
  alert_key k -> alertas code (set_prop i k v g) = alertas code g.
Proof.
  intros Hk. apply match_nodes_set_prop, is_alerta_ignores.
  unfold alert_key in Hk. intros ->. repeat destruct Hk as [Hk|Hk]; discriminate Hk.
Qed.

(** *** The rows of the rule are not changed by its own writes *)

Lemma riesgo_alto_where_set_node_prop_l (k : string) (v : option Value) (nd nm : Node) :
  k <> "mu_severo" ->
  riesgo_alto_where (set_node_prop k v nd) nm = riesgo_alto_where nd nm.
Proof.
  intros Hk. unfold riesgo_alto_where.
  rewrite prop_set_node_prop_ne by exact Hk. reflexivity.
Qed.

Lemma riesgo_alto_where_set_node_prop_r (k : string) (v : option Value) (nd nm : Node) :
  k <> "mu_baja" ->
  riesgo_alto_where nd (set_node_prop k v nm) = riesgo_alto_where nd nm.
Proof.
  intros Hk. unfold riesgo_alto_where.
  rewrite prop_set_node_prop_ne by exact Hk. reflexivity.
Qed.

Lemma riesgo_alto_row_set_prop (i : nat) (k : string) (v : option Value)
    (g : Graph) (sd sm : nat) :
  k <> "mu_severo" -> k <> "mu_baja" ->
  riesgo_alto_row (set_prop i k v g) sd sm = riesgo_alto_row g sd sm.
Proof.
  intros Hs Hb. unfold riesgo_alto_row. rewrite !node_at_set_prop.
  destruct (decide (i = sd)), (decide (i = sm));
    destruct (node_at g sd) as [nd|], (node_at g sm) as [nm|]; cbn; try reflexivity;
    rewrite ?riesgo_alto_where_set_node_prop_l, ?riesgo_alto_where_set_node_prop_r
      by assumption; reflexivity.
Qed.

Lemma riesgo_alto_rows_set_prop (i : nat) (k : string) (v : option Value) (g : Graph) :
  k <> "slot_name" -> k <> "mu_severo" -> k <> "mu_baja" ->
  riesgo_alto_rows (set_prop i k v g) = riesgo_alto_rows g.
Proof.
  intros Hn Hs Hb. unfold riesgo_alto_rows.
  rewrite (match_nodes_set_prop is_dolor_actual)
    by (apply is_dolor_actual_ignores; exact Hn).
  rewrite (match_nodes_set_prop is_mejora_observada)
    by (apply is_mejora_observada_ignores; exact Hn).
  apply Forall_bind_ext, Forall_forall. intros sd _.
  apply Forall_bind_ext, Forall_forall. intros sm _.
  apply riesgo_alto_row_set_prop; assumption.
Qed.

Lemma riesgo_alto_rows_alert_key (i : nat) (k : string) (v : option Value) (g : Graph) :
  alert_key k -> riesgo_alto_rows (set_prop i k v g) = riesgo_alto_rows g.
Proof.
  intros Hk. unfold alert_key in Hk.
  apply riesgo_alto_rows_set_prop; intros ->;
    repeat destruct Hk as [Hk|Hk]; discriminate Hk.
Qed.

Lemma riesgo_alto_rows_add_node (n : Node) (g : Graph) :
  is_dolor_actual n = false -> is_mejora_observada n = false ->
  riesgo_alto_rows (add_node n g) = riesgo_alto_rows g.
Proof.
  intros Hd Hm. unfold riesgo_alto_rows.
  rewrite !match_nodes_add_node, Hd, Hm, !app_nil_r.
  apply Forall_bind_ext, Forall_forall. intros sd Hsd.
  apply Forall_bind_ext, Forall_forall. intros sm Hsm.
  apply match_nodes_lt in Hsd, Hsm.
  unfold riesgo_alto_row. rewrite !node_at_add_node_lt by assumption.
  reflexivity.
Qed.

Lemma fired_rows (now : nat) (g : Graph) :
  riesgo_alto_rows (fired now g) = riesgo_alto_rows g.
Proof.
  unfold fired, riesgo_alto_fire.
  destruct (merge_node "Alerta" "codigo" codigo_riesgo_alto (fun ps => ps) g)
    as [g1 als] eqn:Hm.
  cbn [fst].
  rewrite (set_all_preserves riesgo_alto_rows riesgo_alto_rows_alert_key).
  destruct (alertas codigo_riesgo_alto g) as [|a l] eqn:Ha.
  - rewrite merge_node_new in Hm by exact Ha. injection Hm as <- _.
    apply riesgo_alto_rows_add_node; reflexivity.
  - rewrite merge_node_found in Hm by (rewrite Ha; discriminate).
    injection Hm as <- _. reflexivity.
Qed.

(** *** One firing *)

Lemma prop_alert_fields_ts (now : nat) (n : Node) :
  prop (alert_fields now n) "ts" = Some (VDateTime now).
Proof.
  unfold alert_fields.
  rewrite !prop_set_node_prop_ne by discriminate.
  apply prop_set_node_prop_eq.
Qed.

Lemma prop_alert_fields_resuelta (now : nat) (n : Node) :
  prop (alert_fields now n) "resuelta" = Some (VBool false).
Proof. unfold alert_fields. apply prop_set_node_prop_eq. Qed.

Lemma elem_not_nil {A : Type} (x : A) (l : list A) : x ∈ l -> l <> [].
Proof. intros Hin ->. inversion Hin. Qed.

Lemma fired_spec (now : nat) (g : Graph) :
  alertas codigo_riesgo_alto (fired now g)
  = match alertas codigo_riesgo_alto g with
    | [] => [length (nodes g)]
    | found => found
    end
  /\ (forall al, al ∈ alertas codigo_riesgo_alto (fired now g) ->
        get_prop (fired now g) al "ts" = Some (VDateTime now)
        /\ get_prop (fired now g) al "resuelta" = Some (VBool false))
  /\ (riesgo_alto_fire now g).2 <> [].
Proof.
  pose proof (merge_node_binds codigo_riesgo_alto (fun ps => ps) g
                (new_alert_is_alerta codigo_riesgo_alto)) as [Hals Hne].
  assert (Hwhich : (merge_node "Alerta" "codigo" codigo_riesgo_alto (fun ps => ps) g).2
                   = match alertas codigo_riesgo_alto g with
                     | [] => [length (nodes g)]
                     | found => found
                     end).
  { destruct (alertas codigo_riesgo_alto g) as [|a l] eqn:Ha.
    - rewrite merge_node_new by exact Ha. reflexivity.
    - rewrite merge_node_found by (rewrite Ha; discriminate). rewrite Ha. reflexivity. }
  unfold fired, riesgo_alto_fire.
  destruct (merge_node "Alerta" "codigo" codigo_riesgo_alto (fun ps => ps) g)
    as [g1 als]. cbn [fst snd] in *.
  set (g2 := fold_left (fun h al => riesgo_alto_set now al h) als g1).
  assert (Hsame : alertas codigo_riesgo_alto g2 = als).
  { unfold g2.
    rewrite (set_all_preserves (alertas codigo_riesgo_alto)
               (alertas_set_prop codigo_riesgo_alto)).
    symmetry. exact Hals. }
  assert (Hnode : forall al, al ∈ als ->
            exists n, node_at g2 al = Some (alert_fields now n)).
  { intros al Hal. unfold g2.
    rewrite node_at_set_all by (rewrite Hals; apply match_nodes_NoDup).
    destruct (decide (al ∈ als)); [|contradiction].
    rewrite Hals in Hal. apply match_nodes_spec in Hal as (n & Hn & _).
    exists n. rewrite Hn. reflexivity. }
  split; [rewrite Hsame; exact Hwhich|]. split.
  - intros al Hal. rewrite Hsame in Hal.
    destruct (Hnode al Hal) as (n & Hn). unfold get_prop. rewrite Hn. cbn.
    split; [apply prop_alert_fields_ts | apply prop_alert_fields_resuelta].
  - destruct als as [|a l]; [contradiction Hne; reflexivity|].
    destruct (Hnode a ltac:(left)) as (n & Hn).
    set (a' := alert_fields now n) in Hn.
    assert (Hin : mkAlertRow (prop a' "codigo") (prop a' "severidad")
                    (prop a' "descripcion") (prop a' "ts")
                  ∈ (a :: l) ≫= alert_row g2).
    { apply list_elem_of_bind. exists a. split; [|left].
      unfold alert_row. rewrite Hn. left. }
    intros Hnil. apply (elem_not_nil _ _ Hin). exact Hnil.
Qed.

(** *** The statement: one firing per bound row *)

Lemma rule_graph_fold (now : nat) (l : list (nat * nat)) (g : Graph)
    (out : list AlertRow) :
  (fold_left (fun acc _ => let r := riesgo_alto_fire now acc.1 in (r.1, acc.2 ++ r.2))
     l (g, out)).1
  = fold_left (fun h _ => fired now h) l g.
Proof.
  revert g out. induction l as [|x l IH]; intros g out; cbn [fold_left fst snd].
  - reflexivity.
  - rewrite IH. reflexivity.
Qed.

Lemma rule_graph (now : nat) (g : Graph) :
  (rule_alerta_riesgo_alto now g).1
  = fold_left (fun h _ => fired now h) (riesgo_alto_rows g) g.
Proof. unfold rule_alerta_riesgo_alto. apply rule_graph_fold. Qed.

Lemma rule_no_rows (now : nat) (g : Graph) :
  riesgo_alto_rows g = [] -> rule_alerta_riesgo_alto now g = (g, []).
Proof. intros H. unfold rule_alerta_riesgo_alto. rewrite H. reflexivity. Qed.

Lemma rule_returns_rows (now : nat) (g : Graph) :
  riesgo_alto_rows g <> [] -> (rule_alerta_riesgo_alto now g).2 <> [].
Proof.
  unfold rule_alerta_riesgo_alto.
  destruct (riesgo_alto_rows g) as [|x l _] using rev_ind; [intros H; contradiction H; reflexivity|].
  intros _. rewrite fold_left_app. cbn [fold_left snd].
  pose proof (fired_spec now
    (fold_left (fun acc _ => let r := riesgo_alto_fire now acc.1 in (r.1, acc.2 ++ r.2))
       l (g, [])).1) as (_ & _ & Hne).
  intros Happ. apply app_eq_nil in Happ as [_ Hnil]. contradiction.
Qed.

Lemma fired_fold_rows (now : nat) (l : list (nat * nat)) (g : Graph) :
  riesgo_alto_rows (fold_left (fun h _ => fired now h) l g) = riesgo_alto_rows g.
Proof.
  revert g. induction l as [|x l IH]; intros g; cbn [fold_left].
  - reflexivity.
  - rewrite IH. apply fired_rows.
Qed.

Lemma fired_fold_alertas (now : nat) (l : list (nat * nat)) (g : Graph) :
  l <> [] ->
  alertas codigo_riesgo_alto (fold_left (fun h _ => fired now h) l g)
  = match alertas codigo_riesgo_alto g with
    | [] => [length (nodes g)]
    | found => found
    end.
Proof.
  revert g. induction l as [|x l IH]; intros g Hl; [contradiction Hl; reflexivity|].
  cbn [fold_left]. destruct (fired_spec now g) as (Hf & _ & _).
  destruct l as [|y l].
  - cbn [fold_left]. exact Hf.
  - rewrite IH by discriminate. rewrite Hf.
    destruct (alertas codigo_riesgo_alto g); reflexivity.
Qed.

Lemma fired_fold_fields (now : nat) (l : list (nat * nat)) (g : Graph) (al : nat) :
  l <> [] ->
  al ∈ alertas codigo_riesgo_alto (fold_left (fun h _ => fired now h) l g) ->
  get_prop (fold_left (fun h _ => fired now h) l g) al "ts" = Some (VDateTime now)
  /\ get_prop (fold_left (fun h _ => fired now h) l g) al "resuelta"
     = Some (VBool false).
Proof.
  destruct l as [|x l _] using rev_ind; [intros H; contradiction H; reflexivity|].
  intros _. rewrite fold_left_app. cbn [fold_left].
  apply fired_spec.
Qed.

(** The rule leaves its own rows as they are. *)
Lemma rule_rows (now : nat) (g : Graph) :
  riesgo_alto_rows (rule_alerta_riesgo_alto now g).1 = riesgo_alto_rows g.
Proof. rewrite rule_graph. apply fired_fold_rows. Qed.

(** *** When the rule fires *)

Lemma cy_ge_float (r t : R) : cy_ge (VFloat r) t = true <-> t <= r.
Proof.
  unfold cy_ge; cbn [as_number].
  destruct (Rle_dec t r); split; intros H; try reflexivity; try assumption.
  - discriminate H.
  - contradiction.
Qed.

Lemma bind_nil {A B : Type} (f : A -> list B) (l : list A) :
  (forall x, x ∈ l -> f x = []) -> l ≫= f = [].
Proof.
  induction l as [|a l IH]; intros H; cbn; [reflexivity|].
  rewrite (H a) by left. cbn. apply IH. intros x Hx. apply H. right. exact Hx.
Qed.

Lemma riesgo_alto_rows_intro (g : Graph) (sd sm : nat) (nd nm : Node) :
  sd ∈ match_nodes is_dolor_actual g ->
  sm ∈ match_nodes is_mejora_observada g ->
  node_at g sd = Some nd -> node_at g sm = Some nm ->
  riesgo_alto_where nd nm = true ->
  (sd, sm) ∈ riesgo_alto_rows g.
Proof.
  intros Hsd Hsm Hnd Hnm Hw. unfold riesgo_alto_rows.
  apply list_elem_of_bind. exists sd. split; [|exact Hsd].
  apply list_elem_of_bind. exists sm. split; [|exact Hsm].
  unfold riesgo_alto_row. rewrite Hnd, Hnm, Hw. left.
Qed.

Lemma get_prop_node (g : Graph) (i : nat) (k : string) (v : Value) :
  get_prop g i k = Some v -> exists n, node_at g i = Some n /\ prop n k = Some v.
Proof.
  unfold get_prop. destruct (node_at g i) as [n|]; [|discriminate].
  cbn. intros H. exists n. split; [reflexivity | exact H].
Qed.

Lemma riesgo_alto_rows_below (g : Graph) (sev : R) :
  sev < umbral_dolor ->
  (forall sd, sd ∈ match_nodes is_dolor_actual g ->
     get_prop g sd "mu_severo" = Some (VFloat sev)) ->
  riesgo_alto_rows g = [].
Proof.
  intros Hlt Hsev. unfold riesgo_alto_rows.
  apply bind_nil. intros sd Hsd. apply bind_nil. intros sm _.
  destruct (get_prop_node g sd "mu_severo" _ (Hsev sd Hsd)) as (nd & Hnd & Hp).
  unfold riesgo_alto_row. rewrite Hnd.
  destruct (node_at g sm) as [nm|]; [|reflexivity].
  unfold riesgo_alto_where. rewrite Hp. cbn [coalesce0 default from_option Datatypes.id].
  destruct (cy_ge (VFloat sev) umbral_dolor) eqn:Hge; [|reflexivity].
  apply cy_ge_float in Hge. lra.
Qed.

Lemma riesgo_alto_rows_above (g : Graph) (sd sm : nat) (sev baja : R) :
  umbral_dolor <= sev -> umbral_mejora <= baja ->
  sd ∈ match_nodes is_dolor_actual g ->
  sm ∈ match_nodes is_mejora_observada g ->
  get_prop g sd "mu_severo" = Some (VFloat sev) ->
  get_prop g sm "mu_baja" = Some (VFloat baja) ->
  riesgo_alto_rows g <> [].
Proof.
  intros Hs Hb Hsd Hsm Hps Hpb.
  destruct (get_prop_node g sd _ _ Hps) as (nd & Hnd & Hp1).
  destruct (get_prop_node g sm _ _ Hpb) as (nm & Hnm & Hp2).
  apply (elem_not_nil (sd, sm)).
  apply (riesgo_alto_rows_intro g sd sm nd nm); try assumption.
  unfold riesgo_alto_where. rewrite Hp1, Hp2.
  cbn [coalesce0 default from_option Datatypes.id].
  apply andb_true_iff. split; apply cy_ge_float; assumption.
Qed.

(** C7. With the thresholds 0.7 and 0.6, the rule does not fire when the
    membership "severo" is 0.65: the store is left as it is and no row is
    returned.  It fires when "severo" is 0.75 and "baja" is 0.62: a row is
    returned and the alert is in the store. *)
Theorem scenario_F (now : nat) (g : Graph) :
  ((forall sd, sd ∈ match_nodes is_dolor_actual g ->
      get_prop g sd "mu_severo" = Some (VFloat (65 / 100))) ->
   rule_alerta_riesgo_alto now g = (g, []))
  /\
  (forall sd sm,
     sd ∈ match_nodes is_dolor_actual g ->
     sm ∈ match_nodes is_mejora_observada g ->
     get_prop g sd "mu_severo" = Some (VFloat (75 / 100)) ->
     get_prop g sm "mu_baja" = Some (VFloat (62 / 100)) ->
     (rule_alerta_riesgo_alto now g).2 <> []
     /\ alertas codigo_riesgo_alto (rule_alerta_riesgo_alto now g).1 <> []).
Proof.
  split.
  - intros Hsev. apply rule_no_rows.
    apply (riesgo_alto_rows_below g (65 / 100)); [unfold umbral_dolor; lra | exact Hsev].
  - intros sd sm Hsd Hsm Hps Hpb.
    assert (Hrows : riesgo_alto_rows g <> []).
    { apply (riesgo_alto_rows_above g sd sm (75 / 100) (62 / 100)); try assumption.
      - unfold umbral_dolor; lra.
      - unfold umbral_mejora; lra. }
    split; [apply rule_returns_rows; exact Hrows|].
    rewrite rule_graph, fired_fold_alertas by exact Hrows.
    destruct (alertas codigo_riesgo_alto g); discriminate.
Qed.

Lemma fuzzified_dolor (sev baja : R) :
  match_nodes is_dolor_actual (fuzzified sev baja) = [0%nat].
Proof. reflexivity. Qed.

Lemma fuzzified_mejora (sev baja : R) :
  match_nodes is_mejora_observada (fuzzified sev baja) = [1%nat].
Proof. reflexivity. Qed.

Lemma fuzzified_mu_severo (sev baja : R) :
  get_prop (fuzzified sev baja) 0 "mu_severo" = Some (VFloat sev).
Proof. reflexivity. Qed.

Lemma fuzzified_mu_baja (sev baja : R) :
  get_prop (fuzzified sev baja) 1 "mu_baja" = Some (VFloat baja).
Proof. reflexivity. Qed.

Lemma scenario_F_witness :
  rule_alerta_riesgo_alto 1 (fuzzified (65 / 100) (7 / 10))
  = (fuzzified (65 / 100) (7 / 10), [])
  /\ (rule_alerta_riesgo_alto 1 (fuzzified (75 / 100) (62 / 100))).2 <> []
  /\ alertas codigo_riesgo_alto
       (rule_alerta_riesgo_alto 1 (fuzzified (75 / 100) (62 / 100))).1 <> [].
Proof.
  split.
  - apply (proj1 (scenario_F 1 (fuzzified (65 / 100) (7 / 10)))).
    intros sd Hsd. rewrite fuzzified_dolor in Hsd.
    apply list_elem_of_singleton in Hsd as ->. apply fuzzified_mu_severo.
  - apply (proj2 (scenario_F 1 (fuzzified (75 / 100) (62 / 100))) 0%nat 1%nat).
    + rewrite fuzzified_dolor. left.
    + rewrite fuzzified_mejora. left.
    + apply fuzzified_mu_severo.
    + apply fuzzified_mu_baja.
Defined.

Lemma rule_alertas (now : nat) (g : Graph) :
  riesgo_alto_rows g <> [] ->
  alertas codigo_riesgo_alto (rule_alerta_riesgo_alto now g).1
  = match alertas codigo_riesgo_alto g with
    | [] => [length (nodes g)]
    | found => found
    end.
Proof. intros H. rewrite rule_graph. apply fired_fold_alertas. exact H. Qed.

Lemma rule_fields (now : nat) (g : Graph) (al : nat) :
  riesgo_alto_rows g <> [] ->
  al ∈ alertas codigo_riesgo_alto (rule_alerta_riesgo_alto now g).1 ->
  get_prop (rule_alerta_riesgo_alto now g).1 al "ts" = Some (VDateTime now)
  /\ get_prop (rule_alerta_riesgo_alto now g).1 al "resuelta" = Some (VBool false).
Proof.
  intros H. rewrite rule_graph. apply fired_fold_fields. exact H.
Qed.

(** The threshold rule keeps one Alert record per code: fired on a store
    with no alert of the code, it leaves exactly one, and firing again
    leaves the same one. *)
Lemma rule_one_record (t1 t2 : nat) (g : Graph) :
  riesgo_alto_rows g <> [] ->
  alertas codigo_riesgo_alto g = [] ->
  alertas codigo_riesgo_alto (rule_alerta_riesgo_alto t1 g).1 = [length (nodes g)]
  /\ alertas codigo_riesgo_alto
       (rule_alerta_riesgo_alto t2 (rule_alerta_riesgo_alto t1 g).1).1
     = [length (nodes g)].
Proof.
  intros Hrows Hnone.
  assert (H1 : alertas codigo_riesgo_alto (rule_alerta_riesgo_alto t1 g).1
               = [length (nodes g)]).
  { rewrite rule_alertas by exact Hrows. rewrite Hnone. reflexivity. }
  split; [exact H1|].
  rewrite rule_alertas by (rewrite rule_rows; exact Hrows).
  rewrite H1. reflexivity.
Qed.

(** C2, on the threshold rule. Whenever [rule_alerta_riesgo_alto] fires
    at [t1] and again at [t2] on the same slots, the Alert record is the
    same one, but its timestamp is [t1] after the first firing and [t2]
    after the second; and an alert that was resolved in between is not
    resolved any more after the second firing. *)
Theorem riesgo_alto_refire (g : Graph) (t1 t2 : nat) :
  riesgo_alto_rows g <> [] ->
  let g1 := (rule_alerta_riesgo_alto t1 g).1 in
  let g2 := (rule_alerta_riesgo_alto t2 g1).1 in
  alertas codigo_riesgo_alto g1 <> []
  /\ alertas codigo_riesgo_alto g2 = alertas codigo_riesgo_alto g1
  /\ forall al, al ∈ alertas codigo_riesgo_alto g1 ->
       get_prop g1 al "ts" = Some (VDateTime t1)
       /\ get_prop g2 al "ts" = Some (VDateTime t2)
       /\ let resolved := set_prop al "resuelta" (Some (VBool true)) g1 in
          get_prop resolved al "resuelta" = Some (VBool true)
          /\ get_prop (rule_alerta_riesgo_alto t2 resolved).1 al "resuelta"
             = Some (VBool false).
Proof.
  intros Hrows g1 g2.
  assert (Hrows1 : riesgo_alto_rows g1 <> []).
  { unfold g1. rewrite rule_rows. exact Hrows. }
  assert (Hne : alertas codigo_riesgo_alto g1 <> []).
  { unfold g1. rewrite rule_alertas by exact Hrows.
    destruct (alertas codigo_riesgo_alto g); discriminate. }
  assert (Hsame : alertas codigo_riesgo_alto g2 = alertas codigo_riesgo_alto g1).
  { unfold g2. rewrite rule_alertas by exact Hrows1.
    destruct (alertas codigo_riesgo_alto g1); [contradiction Hne|]; reflexivity. }
  split; [exact Hne|]. split; [exact Hsame|].
  intros al Hal. split; [|split].
  - apply (rule_fields t1 g al Hrows Hal).
  - apply (rule_fields t2 g1 al Hrows1). fold g2. rewrite Hsame. exact Hal.
  - intros resolved.
    assert (Hkey : alert_key "resuelta") by (unfold alert_key; tauto).
    split.
    + apply get_prop_set_prop_eq. apply (match_nodes_lt _ _ _ Hal).
    + assert (Hrows2 : riesgo_alto_rows resolved <> []).
      { unfold resolved. rewrite riesgo_alto_rows_alert_key by exact Hkey.
        exact Hrows1. }
      apply (rule_fields t2 resolved al Hrows2).
      rewrite rule_alertas by exact Hrows2.
      unfold resolved at 1. rewrite alertas_set_prop by exact Hkey.
      destruct (alertas codigo_riesgo_alto g1); [contradiction Hne; reflexivity|].
      exact Hal.
Qed.

Lemma fuzzified_fires :
  riesgo_alto_rows (fuzzified (75 / 100) (62 / 100)) <> [].
Proof.
  apply (riesgo_alto_rows_above _ 0 1 (75 / 100) (62 / 100)).
  - unfold umbral_dolor; lra.
  - unfold umbral_mejora; lra.
  - rewrite fuzzified_dolor. left.
  - rewrite fuzzified_mejora. left.
  - apply fuzzified_mu_severo.
  - apply fuzzified_mu_baja.
Qed.

Lemma riesgo_alto_refire_witness :
  let g := fuzzified (75 / 100) (62 / 100) in
  let g1 := (rule_alerta_riesgo_alto 1 g).1 in
  let g2 := (rule_alerta_riesgo_alto 2 g1).1 in
  alertas codigo_riesgo_alto g1 <> []
  /\ alertas codigo_riesgo_alto g2 = alertas codigo_riesgo_alto g1
  /\ forall al, al ∈ alertas codigo_riesgo_alto g1 ->
       get_prop g1 al "ts" = Some (VDateTime 1)
       /\ get_prop g2 al "ts" = Some (VDateTime 2)
       /\ let resolved := set_prop al "resuelta" (Some (VBool true)) g1 in
          get_prop resolved al "resuelta" = Some (VBool true)
          /\ get_prop (rule_alerta_riesgo_alto 2 resolved).1 al "resuelta"
             = Some (VBool false).
Proof.
  exact (riesgo_alto_refire (fuzzified (75 / 100) (62 / 100)) 1 2 fuzzified_fires).
Defined.

End RuleProps.

(** ** The precision of the scores *)

Module PrecisionProps.
Import Store Rounding RoundingProps App LogicaDifusa StoreProps Scenarios.

Lemma node_at_entropy_slot_ne (now i j : nat) (g : Graph) :
  i <> j -> node_at (entropy_slot now i g).1 j = node_at g j.
Proof.
  intros Hne. unfold entropy_slot.
  destruct (node_at g i); [|reflexivity]. cbn [fst].
  rewrite !node_at_set_prop_ne by exact Hne. reflexivity.
Qed.

Lemma get_prop_entropy_slot (now i : nat) (g : Graph) (s : Node) :
  node_at g i = Some s ->
  get_prop (entropy_slot now i g).1 i "entropia"
  = Some (VFloat (cy_round (Hnorm (slot_memberships s)) 4)).
Proof.
  intros Hs. unfold entropy_slot. rewrite Hs. cbn [fst].
  rewrite get_prop_set_prop_ne by (right; discriminate).
  apply get_prop_set_prop_eq. apply lookup_lt_Some in Hs. exact Hs.
Qed.

Lemma entropy_dolor_fold (now : nat) (l : list nat) (g : Graph) (out : list EntropyRow) :
  (fold_left (fun acc i => let r := entropy_slot now i acc.1 in (r.1, acc.2 ++ r.2))
     l (g, out)).1
  = fold_left (fun h i => (entropy_slot now i h).1) l g.
Proof.
  revert g out. induction l as [|x l IH]; intros g out; cbn [fold_left fst snd].
  - reflexivity.
  - rewrite IH. reflexivity.
Qed.

Lemma entropy_fold_other (now : nat) (l : list nat) (g : Graph) (j : nat) :
  j ∉ l ->
  node_at (fold_left (fun h i => (entropy_slot now i h).1) l g) j = node_at g j.
Proof.
  revert g. induction l as [|a l IH]; intros g Hj; cbn [fold_left].
  - reflexivity.
  - apply not_elem_of_cons in Hj as [Hne Hj].
    rewrite IH by exact Hj. apply node_at_entropy_slot_ne. congruence.
Qed.

Lemma entropy_fold_at (now : nat) (l : list nat) (g : Graph) (i : nat) (s : Node) :
  NoDup l -> i ∈ l -> node_at g i = Some s ->
  get_prop (fold_left (fun h i => (entropy_slot now i h).1) l g) i "entropia"
  = Some (VFloat (cy_round (Hnorm (slot_memberships s)) 4)).
Proof.
  intros Hnd. revert g. induction Hnd as [|a l Ha Hnd IH]; intros g Hi Hs.
  - inversion Hi.
  - cbn [fold_left]. destruct (decide (i = a)) as [->|Hne].
    + unfold get_prop. rewrite entropy_fold_other by exact Ha.
      apply (get_prop_entropy_slot now a g s Hs).
    + apply elem_of_cons in Hi as [->|Hi]; [contradiction Hne; reflexivity|].
      apply IH; [exact Hi|].
      rewrite node_at_entropy_slot_ne by congruence. exact Hs.
Qed.

(** The entropy [entropy_dolor] stores on a pain slot. *)
Lemma entropy_dolor_stores (now : nat) (g : Graph) (i : nat) (s : Node) :
  i ∈ match_nodes is_dolor_actual g -> node_at g i = Some s ->
  get_prop (entropy_dolor now g).1 i "entropia"
  = Some (VFloat (cy_round (Hnorm (slot_memberships s)) 4)).
Proof.
  intros Hi Hs. unfold entropy_dolor. rewrite entropy_dolor_fold.
  apply entropy_fold_at; [apply match_nodes_NoDup | exact Hi | exact Hs].
Qed.




End PrecisionProps.

(** ** esguincestorceduras.py: the immediate-referral rule *)

Module MonitoreoProps.
Import Store Monitoreo StoreProps RuleProps.

(** *** MERGE of an edge *)

Lemma rel_eqb_eq (a b : Rel) : rel_eqb a b = true <-> a = b.
Proof.
  destruct a as [[a1 a2] a3], b as [[b1 b2] b3]. unfold rel_eqb. cbn [fst snd].
  rewrite !andb_true_iff, !Nat.eqb_eq, String.eqb_eq.
  split; [intros [[-> ->] ->]; reflexivity | intros [= -> -> ->]; auto].
Qed.

Lemma existsb_rel (r : Rel) (l : list Rel) :
  existsb (rel_eqb r) l = true <-> r ∈ l.
Proof.
  rewrite existsb_exists. split.
  - intros (x & Hx & He). apply rel_eqb_eq in He as ->.
    apply list_elem_of_In. exact Hx.
  - intros Hr. exists r. split; [apply list_elem_of_In; exact Hr | apply rel_eqb_eq; reflexivity].
Qed.

Lemma merge_rel_nodes (r : Rel) (g : Graph) : nodes (merge_rel r g) = nodes g.
Proof. unfold merge_rel. destruct (existsb _ _); reflexivity. Qed.

Lemma merge_rel_id (r : Rel) (g : Graph) : r ∈ rels g -> merge_rel r g = g.
Proof.
  intros Hr. unfold merge_rel. apply existsb_rel in Hr. rewrite Hr. reflexivity.
Qed.

Lemma merge_rel_in (r : Rel) (g : Graph) : r ∈ rels (merge_rel r g).
Proof.
  unfold merge_rel. destruct (existsb (rel_eqb r) (rels g)) eqn:He.
  - apply existsb_rel. exact He.
  - cbn. apply elem_of_app. right. left.
Qed.

Lemma merge_rel_mono (r r' : Rel) (g : Graph) :
  r' ∈ rels g -> r' ∈ rels (merge_rel r g).
Proof.
  intros Hr. unfold merge_rel. destruct (existsb _ _); [exact Hr|].
  cbn. apply elem_of_app. left. exact Hr.
Qed.

(** *** The rows depend on the nodes and on the PRESENTA_SINTOMA edges *)

Lemma regla_candidate_nodes (g g' : Graph) (r : Rel) :
  nodes g = nodes g' -> regla_candidate g r = regla_candidate g' r.
Proof. intros H. unfold regla_candidate, node_at. rewrite H. reflexivity. Qed.

Lemma regla_rows_of_ext (g g' : Graph) (l : list Rel) :
  (forall r, regla_candidate g r = regla_candidate g' r) ->
  regla_rows_of g l = regla_rows_of g' l.
Proof.
  intros H. induction l as [|r l IH]; cbn [regla_rows_of]; [reflexivity|].
  rewrite H, IH. reflexivity.
Qed.

Lemma regla_rows_of_snoc (g : Graph) (l : list Rel) (r : Rel) :
  regla_candidate g r = None ->
  regla_rows_of g (l ++ [r]) = regla_rows_of g l.
Proof.
  intros Hr. induction l as [|x l IH]; cbn [regla_rows_of app].
  - rewrite Hr. reflexivity.
  - rewrite IH. reflexivity.
Qed.

Lemma regla_candidate_req (g : Graph) (p a : nat) :
  regla_candidate g (req p a) = None.
Proof.
  unfold regla_candidate, req. cbn [fst snd].
  destruct (node_at g p), (node_at g a); reflexivity.
Qed.

Lemma regla_rows_merge_rel (g : Graph) (p a : nat) :
  regla_rows (merge_rel (req p a) g) = regla_rows g.
Proof.
  unfold merge_rel. destruct (existsb _ _); [reflexivity|].
  unfold regla_rows. cbn [rels].
  rewrite regla_rows_of_snoc by apply regla_candidate_req.
  apply regla_rows_of_ext. intros r. apply regla_candidate_nodes. reflexivity.
Qed.

Lemma regla_candidate_add_node (n : Node) (g : Graph) (r : Rel) :
  has_label "Paciente" n = false -> has_label "Sintoma" n = false ->
  regla_candidate (add_node n g) r = regla_candidate g r.
Proof.
  intros Hp Hs. unfold regla_candidate.
  assert (Hat : forall i,
            node_at (add_node n g) i
            = if decide (i = length (nodes g)) then Some n else node_at g i).
  { intros i. destruct (decide (i = length (nodes g))) as [->|Hne].
    - apply node_at_add_node_new.
    - destruct (decide (i < length (nodes g))%nat).
      + apply node_at_add_node_lt. assumption.
      + unfold node_at, add_node; cbn [nodes].
        rewrite !lookup_ge_None_2; [reflexivity | lia | rewrite length_app; cbn; lia]. }
  rewrite !Hat.
  destruct (decide (r.1.1 = length (nodes g))) as [E1|N1];
    destruct (decide (r.2 = length (nodes g))) as [E2|N2].
  - rewrite Hp, andb_false_r.
    rewrite E1, E2. unfold node_at. rewrite lookup_ge_None_2 by lia. reflexivity.
  - rewrite E1. unfold node_at at 2. rewrite (lookup_ge_None_2 (nodes g)) by lia.
    destruct (node_at g r.2); [|reflexivity].
    rewrite Hp, andb_false_r. reflexivity.
  - rewrite E2. unfold node_at at 3. rewrite (lookup_ge_None_2 (nodes g)) by lia.
    destruct (node_at g r.1.1); [|reflexivity].
    rewrite Hs, andb_false_r. reflexivity.
  - reflexivity.
Qed.

Lemma regla_rows_add_node (n : Node) (g : Graph) :
  has_label "Paciente" n = false -> has_label "Sintoma" n = false ->
  regla_rows (add_node n g) = regla_rows g.
Proof.
  intros Hp Hs. unfold regla_rows. cbn [add_node rels].
  apply regla_rows_of_ext. intros r. apply regla_candidate_add_node; assumption.
Qed.

Lemma alertas_nodes (code : string) (g g' : Graph) :
  nodes g = nodes g' -> alertas code g = alertas code g'.
Proof. intros H. unfold alertas, match_nodes. rewrite H. reflexivity. Qed.

(** *** The second MERGE, for every bound alert *)

Lemma link_nodes (p : nat) (als : list nat) (g : Graph) :
  nodes (fold_left (fun h a => merge_rel (req p a) h) als g) = nodes g.
Proof.
  revert g. induction als as [|a l IH]; intros g; cbn [fold_left]; [reflexivity|].
  rewrite IH. apply merge_rel_nodes.
Qed.

Lemma link_mono (p : nat) (als : list nat) (g : Graph) (r : Rel) :
  r ∈ rels g -> r ∈ rels (fold_left (fun h a => merge_rel (req p a) h) als g).
Proof.
  revert g. induction als as [|a l IH]; intros g Hr; cbn [fold_left]; [exact Hr|].
  apply IH, merge_rel_mono, Hr.
Qed.

Lemma link_in (p : nat) (als : list nat) (g : Graph) (a : nat) :
  a ∈ als -> req p a ∈ rels (fold_left (fun h a => merge_rel (req p a) h) als g).
Proof.
  revert g. induction als as [|b l IH]; intros g Ha; [inversion Ha|].
  cbn [fold_left]. apply elem_of_cons in Ha as [->|Ha].
  - apply link_mono, merge_rel_in.
  - apply IH, Ha.
Qed.

Lemma link_id (p : nat) (als : list nat) (g : Graph) :
  (forall a, a ∈ als -> req p a ∈ rels g) ->
  fold_left (fun h a => merge_rel (req p a) h) als g = g.
Proof.
  induction als as [|b l IH]; intros H; cbn [fold_left]; [reflexivity|].
  rewrite merge_rel_id by (apply H; left).
  apply IH. intros a Ha. apply H. right. exact Ha.
Qed.

Lemma link_rows (p : nat) (als : list nat) (g : Graph) :
  regla_rows (fold_left (fun h a => merge_rel (req p a) h) als g) = regla_rows g.
Proof.
  revert g. induction als as [|a l IH]; intros g; cbn [fold_left]; [reflexivity|].
  rewrite IH. apply regla_rows_merge_rel.
Qed.

(** *** One firing *)

Lemma derivacion_is_alerta (now : nat) :
  is_alerta codigo_derivacion
    (mkNode ["Alerta"] (regla_on_create now {[ "codigo" := VStr codigo_derivacion ]}))
  = true.
Proof.
  unfold is_alerta, has_label, prop_is_str, prop, regla_on_create.
  cbn [labels props existsb].
  rewrite !lookup_insert_ne by discriminate.
  rewrite lookup_singleton_eq, !String.eqb_refl. reflexivity.
Qed.

Lemma fired_for_unfold (now p : nat) (g : Graph) :
  fired_for now p g
  = fold_left (fun h a => merge_rel (req p a) h)
      (merge_node "Alerta" "codigo" codigo_derivacion (regla_on_create now) g).2
      (merge_node "Alerta" "codigo" codigo_derivacion (regla_on_create now) g).1.
Proof.
  unfold fired_for, regla_fire.
  destruct (merge_node "Alerta" "codigo" codigo_derivacion (regla_on_create now) g).
  reflexivity.
Qed.

Lemma fired_for_found (now p : nat) (g : Graph) :
  alertas codigo_derivacion g <> [] ->
  fired_for now p g
  = fold_left (fun h a => merge_rel (req p a) h) (alertas codigo_derivacion g) g.
Proof.
  intros Hne. rewrite fired_for_unfold, merge_node_found by exact Hne. reflexivity.
Qed.

Lemma fired_for_new (now p : nat) (g : Graph) :
  alertas codigo_derivacion g = [] ->
  fired_for now p g
  = merge_rel (req p (length (nodes g)))
      (add_node (mkNode ["Alerta"]
                   (regla_on_create now {[ "codigo" := VStr codigo_derivacion ]})) g).
Proof.
  intros He. rewrite fired_for_unfold, merge_node_new by exact He. reflexivity.
Qed.

Lemma fired_for_alertas (now p : nat) (g : Graph) :
  alertas codigo_derivacion (fired_for now p g)
  = match alertas codigo_derivacion g with
    | [] => [length (nodes g)]
    | found => found
    end.
Proof.
  destruct (alertas codigo_derivacion g) as [|a l] eqn:Ha.
  - rewrite fired_for_new by exact Ha.
    rewrite (alertas_nodes _ _ _ (merge_rel_nodes _ _)).
    unfold alertas in *. rewrite match_nodes_add_node, Ha, derivacion_is_alerta.
    reflexivity.
  - rewrite fired_for_found by (rewrite Ha; discriminate).
    rewrite (alertas_nodes _ _ _ (link_nodes _ _ _)). exact Ha.
Qed.

Lemma fired_for_rows (now p : nat) (g : Graph) :
  regla_rows (fired_for now p g) = regla_rows g.
Proof.
  destruct (alertas codigo_derivacion g) as [|a l] eqn:Ha.
  - rewrite fired_for_new by exact Ha.
    rewrite regla_rows_merge_rel. apply regla_rows_add_node; reflexivity.
  - rewrite fired_for_found by (rewrite Ha; discriminate). apply link_rows.
Qed.

Lemma fired_for_mono (now p : nat) (g : Graph) (r : Rel) :
  r ∈ rels g -> r ∈ rels (fired_for now p g).
Proof.
  intros Hr. destruct (alertas codigo_derivacion g) as [|a l] eqn:Ha.
  - rewrite fired_for_new by exact Ha. apply merge_rel_mono. exact Hr.
  - rewrite fired_for_found by (rewrite Ha; discriminate). apply link_mono, Hr.
Qed.

Lemma fired_for_links (now p : nat) (g : Graph) (a : nat) :
  a ∈ alertas codigo_derivacion (fired_for now p g) ->
  req p a ∈ rels (fired_for now p g).
Proof.
  rewrite fired_for_alertas.
  destruct (alertas codigo_derivacion g) as [|b l] eqn:Ha.
  - intros Hin. apply list_elem_of_singleton in Hin as ->.
    rewrite fired_for_new by exact Ha. apply merge_rel_in.
  - intros Hin. rewrite fired_for_found by (rewrite Ha; discriminate).
    rewrite Ha. apply link_in, Hin.
Qed.

Lemma fired_for_id (now p : nat) (g : Graph) :
  alertas codigo_derivacion g <> [] ->
  (forall a, a ∈ alertas codigo_derivacion g -> req p a ∈ rels g) ->
  fired_for now p g = g.
Proof.
  intros Hne Hl. rewrite fired_for_found by exact Hne. apply link_id, Hl.
Qed.

Lemma fired_for_nodes_found (now p : nat) (g : Graph) :
  alertas codigo_derivacion g <> [] -> nodes (fired_for now p g) = nodes g.
Proof.
  intros Hne. rewrite fired_for_found by exact Hne. apply link_nodes.
Qed.

(** *** The statement *)

Lemma run_rows (now : nat) (ps : list nat) (g : Graph) :
  regla_rows (run now ps g) = regla_rows g.
Proof.
  revert g. induction ps as [|p l IH]; intros g; cbn [run fold_left]; [reflexivity|].
  fold (run now l (fired_for now p g)). rewrite IH. apply fired_for_rows.
Qed.

Lemma run_mono (now : nat) (ps : list nat) (g : Graph) (r : Rel) :
  r ∈ rels g -> r ∈ rels (run now ps g).
Proof.
  revert g. induction ps as [|p l IH]; intros g Hr; cbn [run fold_left]; [exact Hr|].
  fold (run now l (fired_for now p g)). apply IH, fired_for_mono, Hr.
Qed.

Lemma run_alertas_found (now : nat) (ps : list nat) (g : Graph) :
  alertas codigo_derivacion g <> [] ->
  alertas codigo_derivacion (run now ps g) = alertas codigo_derivacion g
  /\ nodes (run now ps g) = nodes g.
Proof.
  revert g. induction ps as [|p l IH]; intros g Hne; cbn [run fold_left]; [auto|].
  fold (run now l (fired_for now p g)).
  assert (Hf : alertas codigo_derivacion (fired_for now p g)
               = alertas codigo_derivacion g).
  { rewrite fired_for_alertas. destruct (alertas codigo_derivacion g);
      [contradiction Hne|]; reflexivity. }
  destruct (IH (fired_for now p g)) as [Ha Hn]; [rewrite Hf; exact Hne|].
  split; [rewrite Ha; exact Hf|].
  rewrite Hn. apply fired_for_nodes_found, Hne.
Qed.

Lemma run_links (now : nat) (ps : list nat) (g : Graph) (p a : nat) :
  p ∈ ps -> a ∈ alertas codigo_derivacion (run now ps g) ->
  req p a ∈ rels (run now ps g).
Proof.
  revert g. induction ps as [|q l IH]; intros g Hp Ha; [inversion Hp|].
  cbn [run fold_left] in *. fold (run now l (fired_for now q g)) in *.
  apply elem_of_cons in Hp as [->|Hp]; [|apply IH; assumption].
  assert (Hne : alertas codigo_derivacion (fired_for now q g) <> []).
  { rewrite fired_for_alertas. destruct (alertas codigo_derivacion g); discriminate. }
  destruct (run_alertas_found now l (fired_for now q g) Hne) as [Hsame _].
  rewrite Hsame in Ha. apply run_mono, fired_for_links, Ha.
Qed.

Lemma run_id (now : nat) (ps : list nat) (g : Graph) :
  alertas codigo_derivacion g <> [] ->
  (forall p a, p ∈ ps -> a ∈ alertas codigo_derivacion g -> req p a ∈ rels g) ->
  run now ps g = g.
Proof.
  intros Hne. induction ps as [|q l IH]; intros Hl; cbn [run fold_left]; [reflexivity|].
  rewrite fired_for_id; [|exact Hne|intros a Ha; apply Hl; [left | exact Ha]].
  apply IH. intros p a Hp Ha. apply Hl; [right; exact Hp | exact Ha].
Qed.

Lemma regla_graph_fold (now : nat) (ps : list nat) (g : Graph) (out : list ReglaRow) :
  (fold_left (fun acc p => let r := regla_fire now p acc.1 in (r.1, acc.2 ++ r.2))
     ps (g, out)).1
  = run now ps g.
Proof.
  revert g out. induction ps as [|p l IH]; intros g out; cbn [run fold_left fst snd].
  - reflexivity.
  - rewrite IH. reflexivity.
Qed.

(** The statement returns whenever its WHERE clause is well typed, and the
    store it leaves is [run] on the bound rows. *)
Lemma regla_hematoma_severo_runs (now : nat) (g : Graph) (ps : list nat) :
  regla_rows g = Some ps ->
  exists out, regla_hematoma_severo now g = Some (run now ps g, out).
Proof.
  intros Hr. unfold regla_hematoma_severo. rewrite Hr. cbn [mbind option_bind].
  eexists. f_equal. apply injective_projections; cbn [fst snd]; [|reflexivity].
  apply regla_graph_fold.
Qed.

Lemma regla_hematoma_severo_graph (now : nat) (g g1 : Graph) (out : list ReglaRow) :
  regla_hematoma_severo now g = Some (g1, out) ->
  exists ps, regla_rows g = Some ps /\ g1 = run now ps g.
Proof.
  intros H. destruct (regla_rows g) as [ps|] eqn:Hr.
  - exists ps. split; [reflexivity|].
    destruct (regla_hematoma_severo_runs now g ps Hr) as (out' & H').
    rewrite H' in H. injection H as <- _. reflexivity.
  - unfold regla_hematoma_severo in H. rewrite Hr in H. discriminate H.
Qed.

(** The string-match rule is an idempotent upsert: firing it again, at
    any time, on the store a firing has left returns and leaves that
    store as it is. *)
Lemma regla_hematoma_idempotent (t1 t2 : nat) (g g1 : Graph) (out1 : list ReglaRow) :
  regla_hematoma_severo t1 g = Some (g1, out1) ->
  exists out2, regla_hematoma_severo t2 g1 = Some (g1, out2).
Proof.
  intros H1. destruct (regla_hematoma_severo_graph t1 g g1 out1 H1) as (ps & Hr & ->).
  assert (Hr1 : regla_rows (run t1 ps g) = Some ps) by (rewrite run_rows; exact Hr).
  destruct (regla_hematoma_severo_runs t2 (run t1 ps g) ps Hr1) as (out2 & H2).
  exists out2. rewrite H2. f_equal. f_equal.
  destruct ps as [|p l]; [reflexivity|].
  apply run_id.
  - cbn [run fold_left]. fold (run t1 l (fired_for t1 p g)).
    assert (Hne : alertas codigo_derivacion (fired_for t1 p g) <> []).
    { rewrite fired_for_alertas. destruct (alertas codigo_derivacion g); discriminate. }
    destruct (run_alertas_found t1 l (fired_for t1 p g) Hne) as [-> _]. exact Hne.
  - intros q a Hq Ha. apply run_links; assumption.
Qed.

(** Fired on a store with no alert of its code, the rule leaves exactly
    one, created at the time of the firing and not resolved. *)
Lemma regla_hematoma_creates (now : nat) (g : Graph) (p : nat) (ps : list nat) :
  alertas codigo_derivacion g = [] ->
  alertas codigo_derivacion (run now (p :: ps) g) = [length (nodes g)]
  /\ get_prop (run now (p :: ps) g) (length (nodes g)) "created_at"
     = Some (VDateTime now)
  /\ get_prop (run now (p :: ps) g) (length (nodes g)) "resuelta"
     = Some (VBool false).
Proof.
  intros Hnone. cbn [run fold_left]. fold (run now ps (fired_for now p g)).
  assert (Hf : alertas codigo_derivacion (fired_for now p g) = [length (nodes g)]).
  { rewrite fired_for_alertas, Hnone. reflexivity. }
  destruct (run_alertas_found now ps (fired_for now p g)) as [Ha Hn];
    [rewrite Hf; discriminate|].
  split; [rewrite Ha; exact Hf|].
  assert (Hnode : node_at (run now ps (fired_for now p g)) (length (nodes g))
                  = Some (mkNode ["Alerta"]
                            (regla_on_create now {[ "codigo" := VStr codigo_derivacion ]}))).
  { unfold node_at. rewrite Hn, fired_for_new by exact Hnone.
    rewrite merge_rel_nodes. apply node_at_add_node_new. }
  unfold get_prop. rewrite Hnode. cbn [mbind option_bind].
  unfold prop, regla_on_create. cbn [props].
  split.
  - rewrite lookup_insert_ne by discriminate. apply lookup_insert_eq.
  - apply lookup_insert_eq.
Qed.

(** The rule on the ward: the first firing creates the alert and the
    edge, the second changes nothing. *)
Example ward_rows : regla_rows Scenarios.ward = Some [0%nat].
Proof. vm_compute. reflexivity. Qed.

Example ward_fired_twice :
  exists g1 out1 out2,
    regla_hematoma_severo 1 Scenarios.ward = Some (g1, out1)
    /\ regla_hematoma_severo 2 g1 = Some (g1, out2)
    /\ alertas codigo_derivacion g1 = [2%nat]
    /\ get_prop g1 2 "created_at" = Some (VDateTime 1)
    /\ get_prop g1 2 "resuelta" = Some (VBool false)
    /\ rels g1 = [(0, "PRESENTA_SINTOMA", 1); (0, "REQUIERE_ATENCION", 2)]%nat.
Proof.
  destruct (regla_hematoma_severo_runs 1 Scenarios.ward [0%nat] ward_rows)
    as (out1 & H1).
  destruct (regla_hematoma_idempotent 1 2 _ _ _ H1) as (out2 & H2).
  exists (run 1 [0%nat] Scenarios.ward), out1, out2.
  split; [exact H1|]. split; [exact H2|].
  destruct (regla_hematoma_creates 1 Scenarios.ward 0 []) as (Ha & Hc & Hr);
    [vm_compute; reflexivity|].
  split; [exact Ha|]. split; [exact Hc|]. split; [exact Hr|].
  vm_compute. reflexivity.
Qed.

End MonitoreoProps.

(** ** app.py: the shape of the Gaussian membership *)

Module MembershipProps.
Import Store App LogicaDifusa.

Lemma two_sq_pos (sigma : R) : 0 < sigma -> 0 < 2 * sigma ^ 2.
Proof. intros Hs. pose proof (pow_lt sigma 2 Hs). lra. Qed.

Lemma exponent_nonpos (x mu sigma : R) :
  0 < sigma -> - ((x - mu) ^ 2) / (2 * (sigma ^ 2)) <= 0.
Proof.
  intros Hs.
  pose proof (two_sq_pos sigma Hs) as Hd.
  pose proof (pow2_ge_0 (x - mu)) as Hn.
  unfold Rdiv.
  replace (- (x - mu) ^ 2 * / (2 * sigma ^ 2))
    with (- ((x - mu) ^ 2 * / (2 * sigma ^ 2))) by ring.
  pose proof (Rinv_0_lt_compat _ Hd) as Hi.
  assert (0 <= (x - mu) ^ 2 * / (2 * sigma ^ 2)) by (apply Rmult_le_pos; lra).
  lra.
Qed.

Lemma exp_le_mono (a b : R) : a <= b -> exp a <= exp b.
Proof.
  intros [Hlt | ->]; [left; apply exp_increasing; exact Hlt | right; reflexivity].
Qed.


Lemma gaussian_membership_bounds (x mu sigma : R) :
  0 <= gaussian_membership x mu sigma <= 1.
Proof.
  unfold gaussian_membership. destruct (Rle_dec sigma 0) as [_ | Hs]; [lra|].
  split; [left; apply exp_pos|].
  rewrite <- exp_0. apply exp_le_mono, exponent_nonpos. lra.
Qed.










End MembershipProps.

(** ** app.py: the /fuzzy endpoint *)

Module FuzzyProps.
Import Store Rounding RoundingProps App Scenarios MoreScenarios.

Lemma pow10_IZR (d : nat) : 10 ^ d = IZR (10 ^ Z.of_nat d).
Proof. rewrite <- pow_IZR. reflexivity. Qed.

(** Rounding keeps a number of [0,1] in [0,1]. *)
Lemma py_round_unit_interval (x : R) (d : nat) :
  0 <= x <= 1 -> 0 <= py_round x d <= 1.
Proof.
  intros Hx. pose proof (pow10_pos d) as Hp.
  pose proof (Int_part_bounds (x * 10 ^ d)) as Hb.
  assert (Ht : 0 <= x * 10 ^ d <= 10 ^ d) by nra.
  assert (Hf0 : (0 <= Int_part (x * 10 ^ d))%Z).
  { apply Z.lt_succ_r. apply lt_IZR. rewrite succ_IZR. lra. }
  assert (Hscale : forall z : Z, (0 <= z)%Z -> IZR z <= 10 ^ d ->
                     0 <= IZR z / 10 ^ d <= 1).
  { intros z Hz Hle. apply IZR_le in Hz. split.
    - apply Rmult_le_pos; [exact Hz | left; apply Rinv_0_lt_compat; exact Hp].
    - apply (Rmult_le_reg_r (10 ^ d)); [exact Hp|].
      unfold Rdiv. rewrite Rmult_assoc, Rinv_l by lra. lra. }
  assert (Hup : 1 / 2 <= x * 10 ^ d - IZR (Int_part (x * 10 ^ d)) ->
                IZR (Int_part (x * 10 ^ d) + 1) <= 10 ^ d).
  { intros Hhalf. rewrite pow10_IZR in *. apply IZR_le.
    apply Z.lt_succ_r. apply lt_IZR. rewrite succ_IZR, plus_IZR. lra. }
  unfold py_round; cbv zeta.
  destruct (Rlt_dec _ _) as [H1|H1]; [apply Hscale; [exact Hf0 | lra]|].
  destruct (Rlt_dec _ _) as [H2|H2]; [apply Hscale; [lia | apply Hup; lra]|].
  destruct (Z.even _); [apply Hscale; [exact Hf0 | lra] | apply Hscale; [lia | apply Hup; lra]].
Qed.

Lemma py_round_0 (d : nat) : py_round 0 d = 0.
Proof.
  unfold py_round; cbv zeta. rewrite Rmult_0_l.
  rewrite (Int_part_eq 0 0) by lra.
  destruct (Rlt_dec (0 - 0) (1 / 2)); [|lra].
  unfold Rdiv. lra.
Qed.

Lemma gaussian_membership_on_range (v : Value) (mu sigma m : R) :
  gaussian_membership_on v mu sigma = Some m -> 0 <= m <= 1.
Proof.
  unfold gaussian_membership_on.
  destruct (Rle_dec sigma 0); [intros [= <-]; lra|].
  destruct (py_number v) as [x|]; [|discriminate].
  cbn. intros [= <-]. apply MembershipProps.gaussian_membership_bounds.
Qed.



(** X7. The membership degree of every answer of [/fuzzy] lies in
    [0,1]. *)
Theorem fuzzy_pertenencia_in_unit_interval (g : Graph) (q : FuzzyQuery)
    (ind : string) (v : Value) (m s p : R) :
  (fuzzy g q).1 = Payload ind v m s p -> 0 <= p <= 1.
Proof.
  intros Hp.
  destruct (AppProps.fuzzy_payload_pertenencia g q ind v m s p Hp)
    as (mu & Hmu & _ & _ & ->).
  apply py_round_unit_interval.
  apply (gaussian_membership_on_range v m s mu Hmu).
Qed.

Lemma fuzzy_pertenencia_in_unit_interval_witness :
  0 <= py_round (gaussian_membership 3 2 1) 4 <= 1.
Proof.
  apply (fuzzy_pertenencia_in_unit_interval clinic_textual query_with_value_and_keys
           "inflamacion" (VFloat 3) 2 1).
  unfold fuzzy, query_with_value_and_keys. cbn [valor media sigma indicador_nombre].
  rewrite (AppProps.gaussian_membership_on_number _ 3) by reflexivity.
  reflexivity.
Defined.

(** X8. When the lookup yields a text, the endpoint raises [TypeError] if
    the spread is positive, and answers with the degree 0 if the spread
    is not positive: the guard on the spread comes before the
    arithmetic. *)
Theorem fuzzy_textual_indicator (g : Graph) (q : FuzzyQuery) (z : Z) (s txt : string) :
  valor q = None ->
  dni q = Some z -> z <> 0%Z -> sintoma q = Some s -> s <> "" ->
  fetch_indicator_value g (mkLookup z s (indicador_nombre q)) = Some (VStr txt) ->
  (0 < sigma q -> (fuzzy g q).1 = Raises "TypeError")
  /\ (sigma q <= 0 ->
      (fuzzy g q).1 = Payload (indicador_nombre q) (VStr txt) (media q) (sigma q) 0).
Proof.
  intros Hv Hd Hz Hs Hne Hf. unfold fuzzy. rewrite Hv, Hd, Hs.
  assert (Ht : truthy_int (Some z) && truthy_str (Some s) = true).
  { cbn. apply andb_true_iff. split; apply negb_true_iff.
    - apply Z.eqb_neq. exact Hz.
    - apply String.eqb_neq. exact Hne. }
  rewrite Ht. cbv [default from_option Datatypes.id]. rewrite Hf.
  unfold gaussian_membership_on.
  split; intros Hsig.
  - destruct (Rle_dec (sigma q) 0); [lra | reflexivity].
  - destruct (Rle_dec (sigma q) 0); [|contradiction].
    rewrite py_round_0. reflexivity.
Qed.

Example clinic_textual_lookup :
  fetch_indicator_value clinic_textual
    (mkLookup 30111222 "dolor de tobillo" "inflamacion")
  = Some (VStr "moderada").
Proof. reflexivity. Qed.

Lemma fuzzy_textual_indicator_witness :
  (fuzzy clinic_textual (query_textual 1)).1 = Raises "TypeError"
  /\ (fuzzy clinic_textual (query_textual 0)).1
     = Payload "inflamacion" (VStr "moderada") 2 0 0.
Proof.
  split.
  - apply (fuzzy_textual_indicator clinic_textual (query_textual 1) 30111222
             "dolor de tobillo" "moderada");
      try reflexivity; try discriminate; try exact clinic_textual_lookup;
      try (cbn [sigma query_textual]; lra).
  - apply (fuzzy_textual_indicator clinic_textual (query_textual 0) 30111222
             "dolor de tobillo" "moderada");
      try reflexivity; try discriminate; try exact clinic_textual_lookup;
      try (cbn [sigma query_textual]; lra).
Defined.

(** X9. A value that [fetch_indicator_value] returns is the [valor] of an
    Indicador with the requested name, attached by TIENE_INDICADOR to a
    Sintoma with the requested name, which a Paciente with the requested
    dni presents. *)
Theorem fetch_indicator_value_sound (g : Graph) (k : Lookup) (v : Value) :
  fetch_indicator_value g k = Some v ->
  exists (p s i : nat) (np ns ni : Node),
    (p, "PRESENTA_SINTOMA", s) ∈ rels g /\ (s, "TIENE_INDICADOR", i) ∈ rels g
    /\ node_at g p = Some np /\ node_at g s = Some ns /\ node_at g i = Some ni
    /\ has_label "Paciente" np = true /\ prop_is_int np "dni" (lk_dni k) = true
    /\ has_label "Sintoma" ns = true /\ prop_is_str ns "nombre" (lk_sint k) = true
    /\ has_label "Indicador" ni = true /\ prop_is_str ni "nombre" (lk_iname k) = true
    /\ prop ni "valor" = Some v.
Proof.
  unfold fetch_indicator_value. intros Hf.
  assert (Hin : Some v ∈ indicator_rows g k).
  { destruct (indicator_rows g k) as [|row rest]; [discriminate|].
    rewrite Hf. left. }
  unfold indicator_rows in Hin.
  apply list_elem_of_bind in Hin as ([[p t1] s] & Hin & Hr1).
  apply list_elem_of_bind in Hin as ([[s' t2] i] & Hin & Hr2).
  destruct (node_at g p) as [np|] eqn:Hnp; [|inversion Hin].
  destruct (node_at g s) as [ns|] eqn:Hns; [|inversion Hin].
  destruct (node_at g i) as [ni|] eqn:Hni; [|inversion Hin].
  match type of Hin with context [if ?c then _ else _] => destruct c eqn:Hc end;
    [|inversion Hin].
  apply list_elem_of_singleton in Hin.
  repeat (apply andb_true_iff in Hc; destruct Hc as [Hc ?]).
  repeat match goal with
         | H : String.eqb _ _ = true |- _ => apply String.eqb_eq in H
         | H : Nat.eqb _ _ = true |- _ => apply Nat.eqb_eq in H
         end.
  subst.
  exists p, s', i, np, ns, ni. repeat split; try assumption. symmetry. exact Hin.
Qed.

Lemma fetch_indicator_value_sound_witness :
  exists (p s i : nat) (np ns ni : Node),
    (p, "PRESENTA_SINTOMA", s) ∈ rels clinic_textual
    /\ (s, "TIENE_INDICADOR", i) ∈ rels clinic_textual
    /\ node_at clinic_textual p = Some np /\ node_at clinic_textual s = Some ns
    /\ node_at clinic_textual i = Some ni
    /\ has_label "Paciente" np = true /\ prop_is_int np "dni" 30111222 = true
    /\ has_label "Sintoma" ns = true /\ prop_is_str ns "nombre" "dolor de tobillo" = true
    /\ has_label "Indicador" ni = true /\ prop_is_str ni "nombre" "inflamacion" = true
    /\ prop ni "valor" = Some (VStr "moderada").
Proof.
  exact (fetch_indicator_value_sound clinic_textual
           (mkLookup 30111222 "dolor de tobillo" "inflamacion") (VStr "moderada")
           clinic_textual_lookup).
Defined.

End FuzzyProps.

(** ** logicaDifusa.py: the fuzzification statement on any store *)

Module FuzzStatementProps.
Import Store Rounding RoundingProps App LogicaDifusa LogicaDifusaParams StoreProps.

Lemma fuzz_slot_inv (now i : nat) (g g' : Graph) (rows : list FuzzRow)
    (s : Node) (x : Value) :
  node_at g i = Some s -> prop s "valor_crisp" = Some x ->
  fuzz_slot now i g = Done (g', rows) ->
  exists ml mm ms,
    fuzz_values s x ml mm ms
    /\ g' = set_prop i "fuzzy_last_updated" (Some (VDateTime now))
              (set_prop i "mu_severo" (float_prop ms)
                 (set_prop i "mu_moderado" (float_prop mm)
                    (set_prop i "mu_leve" (float_prop ml) g))).
Proof.
  intros Hs Hx. unfold fuzz_slot, fuzz_values. rewrite Hs, Hx.
  destruct (membership_expr x (prop s "a_leve") _) as [ml| |]; try discriminate.
  destruct (membership_expr x (prop s "a_moderado") _) as [mm| |]; try discriminate.
  destruct (membership_expr x (prop s "a_severo") _) as [ms| |]; try discriminate.
  cbn [mbind outcome_bind]. intros [= <- _].
  exists ml, mm, ms. auto.
Qed.

Lemma node_at_fuzz_sets (now i j : nat) (ml mm ms : option R) (g : Graph) :
  node_at (set_prop i "fuzzy_last_updated" (Some (VDateTime now))
             (set_prop i "mu_severo" (float_prop ms)
                (set_prop i "mu_moderado" (float_prop mm)
                   (set_prop i "mu_leve" (float_prop ml) g)))) j
  = if decide (i = j) then fuzz_fields now ml mm ms <$> node_at g j else node_at g j.
Proof.
  rewrite !node_at_set_prop. destruct (decide (i = j)); [|reflexivity].
  destruct (node_at g j); reflexivity.
Qed.

Lemma rels_fuzz_sets (now i : nat) (ml mm ms : option R) (g : Graph) :
  rels (set_prop i "fuzzy_last_updated" (Some (VDateTime now))
          (set_prop i "mu_severo" (float_prop ms)
             (set_prop i "mu_moderado" (float_prop mm)
                (set_prop i "mu_leve" (float_prop ml) g)))) = rels g.
Proof. rewrite !set_prop_rels. reflexivity. Qed.

(** What a successful run of the statement body over the slots [l] leaves:
    the nodes outside [l] as they were, each slot of [l] with the SET
    clause applied for the values computed from it, the edges as they
    were. *)
Lemma for_each_fuzz (now : nat) (l : list nat) :
  NoDup l ->
  forall (g g' : Graph) (rows : list FuzzRow),
    (forall i, i ∈ l -> exists s x, node_at g i = Some s /\ prop s "valor_crisp" = Some x) ->
    for_each (fuzz_slot now) l g = Done (g', rows) ->
    rels g' = rels g
    /\ forall j,
         (j ∉ l -> node_at g' j = node_at g j)
         /\ (j ∈ l -> forall s x,
               node_at g j = Some s -> prop s "valor_crisp" = Some x ->
               exists ml mm ms,
                 fuzz_values s x ml mm ms
                 /\ node_at g' j = Some (fuzz_fields now ml mm ms s)).
Proof.
  induction 1 as [|a l Ha Hnd IH]; intros g g' rows Hpre Hrun.
  - cbn in Hrun. injection Hrun as <- _. split; [reflexivity|].
    intros j. split; [reflexivity | intros Hj; inversion Hj].
  - cbn [for_each] in Hrun.
    destruct (fuzz_slot now a g) as [[g1 rows1]| |] eqn:Hstep; try discriminate Hrun.
    cbn [mbind outcome_bind fst snd] in Hrun.
    destruct (for_each (fuzz_slot now) l g1) as [[g2 rows2]| |] eqn:Hrest;
      try discriminate Hrun.
    cbn [mbind outcome_bind fst snd] in Hrun. injection Hrun as <- _.
    destruct (Hpre a ltac:(left)) as (sa & xa & Hsa & Hxa).
    destruct (fuzz_slot_inv now a g g1 rows1 sa xa Hsa Hxa Hstep)
      as (ml & mm & ms & Hvals & Hg1).
    assert (Hat : forall i, node_at g1 i
              = if decide (a = i) then fuzz_fields now ml mm ms <$> node_at g i
                else node_at g i).
    { intros i. rewrite Hg1. apply node_at_fuzz_sets. }
    assert (Hother : forall i, i ∈ l -> node_at g1 i = node_at g i).
    { intros i Hi. rewrite Hat.
      destruct (decide (a = i)) as [<-|_]; [contradiction | reflexivity]. }
    destruct (IH g1 g2 rows2) as [Hrels Hnodes].
    { intros i Hi. rewrite (Hother i Hi). apply Hpre. right. exact Hi. }
    { exact Hrest. }
    split; [rewrite Hrels, Hg1; apply rels_fuzz_sets|].
    intros j. destruct (Hnodes j) as [Hout Hin]. split.
    + intros Hj. apply not_elem_of_cons in Hj as [Hne Hj].
      rewrite (Hout Hj), Hat.
      destruct (decide (a = j)) as [->|_]; [contradiction Hne; reflexivity | reflexivity].
    + intros Hj s x Hs Hx.
      destruct (decide (j ∈ l)) as [Hjl|Hjl].
      * apply Hin; [exact Hjl | rewrite (Hother j Hjl); exact Hs | exact Hx].
      * apply elem_of_cons in Hj as [->|Hj]; [|contradiction].
        rewrite (Hout Hjl), Hat.
        destruct (decide (a = a)) as [_|Hn]; [|contradiction Hn; reflexivity].
        rewrite Hs in Hsa. injection Hsa as <-.
        rewrite Hx in Hxa. injection Hxa as <-.
        exists ml, mm, ms. rewrite Hs. split; [exact Hvals | reflexivity].
Qed.

Lemma fuzz_slots_have_value (g : Graph) (i : nat) :
  i ∈ fuzz_slots g ->
  exists s x, node_at g i = Some s /\ prop s "valor_crisp" = Some x
              /\ is_dolor_actual s = true.
Proof.
  intros Hi. apply match_nodes_spec in Hi as (s & Hs & Hp).
  apply andb_true_iff in Hp as [Hd Hw]. unfold fuzz_where in Hw.
  destruct (prop s "valor_crisp") as [x|] eqn:Hx; [|discriminate Hw].
  exists s, x. auto.
Qed.

(** The statement on any store, when it returns. *)
Lemma fuzz_gauss_dolor_inv (now : nat) (g g' : Graph) (rows : list FuzzRow) :
  fuzz_gauss_dolor now g = Done (g', rows) ->
  rels g' = rels g
  /\ forall j,
       (j ∉ fuzz_slots g -> node_at g' j = node_at g j)
       /\ (j ∈ fuzz_slots g -> forall s x,
             node_at g j = Some s -> prop s "valor_crisp" = Some x ->
             exists ml mm ms,
               fuzz_values s x ml mm ms
               /\ node_at g' j = Some (fuzz_fields now ml mm ms s)).
Proof.
  intros Hrun. apply (for_each_fuzz now (fuzz_slots g)) with (rows := rows).
  - apply match_nodes_NoDup.
  - intros i Hi. destruct (fuzz_slots_have_value g i Hi) as (s & x & Hs & Hx & _).
    exists s, x. auto.
  - exact Hrun.
Qed.

Lemma prop_fuzz_fields_other (now : nat) (ml mm ms : option R) (s : Node) (k : string) :
  ~ fuzz_key k -> prop (fuzz_fields now ml mm ms s) k = prop s k.
Proof.
  intros Hk. unfold fuzz_fields, fuzz_key in *.
  rewrite !prop_set_node_prop_ne; [reflexivity | | | |]; intros <-; tauto.
Qed.

Lemma prop_fuzz_fields_leve (now : nat) (ml mm ms : option R) (s : Node) :
  prop (fuzz_fields now ml mm ms s) "mu_leve" = float_prop ml.
Proof.
  unfold fuzz_fields. rewrite !prop_set_node_prop_ne by discriminate.
  apply prop_set_node_prop_eq.
Qed.

Lemma prop_fuzz_fields_moderado (now : nat) (ml mm ms : option R) (s : Node) :
  prop (fuzz_fields now ml mm ms s) "mu_moderado" = float_prop mm.
Proof.
  unfold fuzz_fields. rewrite !prop_set_node_prop_ne by discriminate.
  apply prop_set_node_prop_eq.
Qed.

Lemma prop_fuzz_fields_severo (now : nat) (ml mm ms : option R) (s : Node) :
  prop (fuzz_fields now ml mm ms s) "mu_severo" = float_prop ms.
Proof.
  unfold fuzz_fields. rewrite !prop_set_node_prop_ne by discriminate.
  apply prop_set_node_prop_eq.
Qed.

Lemma for_each_fuzz_succeeds (now : nat) (l : list nat) :
  NoDup l ->
  forall g : Graph,
    (forall i, i ∈ l ->
       exists s x ml mm ms,
         node_at g i = Some s /\ prop s "valor_crisp" = Some x
         /\ fuzz_values s x ml mm ms) ->
    exists g' rows, for_each (fuzz_slot now) l g = Done (g', rows).
Proof.
  induction 1 as [|a l Ha Hnd IH]; intros g Hpre.
  - exists g, []. reflexivity.
  - destruct (Hpre a ltac:(left)) as (s & x & ml & mm & ms & Hs & Hx & Hl & Hm & Hsv).
    cbn [for_each].
    rewrite (FuzzProps.fuzz_slot_done now a g s x ml mm ms Hs Hx Hl Hm Hsv).
    cbn [mbind outcome_bind fst snd].
    destruct (IH (set_prop a "fuzzy_last_updated" (Some (VDateTime now))
                    (set_prop a "mu_severo" (float_prop ms)
                       (set_prop a "mu_moderado" (float_prop mm)
                          (set_prop a "mu_leve" (float_prop ml) g)))))
      as (g' & rows & Hrun).
    { intros i Hi. rewrite node_at_fuzz_sets.
      destruct (decide (a = i)) as [<-|_]; [contradiction|].
      apply Hpre. right. exact Hi. }
    rewrite Hrun. cbn [mbind outcome_bind fst snd]. eauto.
Qed.

(** The statement returns when the memberships of every bound slot
    evaluate. *)
Lemma fuzz_gauss_dolor_succeeds (now : nat) (g : Graph) :
  (forall i s x, i ∈ fuzz_slots g -> node_at g i = Some s ->
     prop s "valor_crisp" = Some x ->
     exists ml mm ms, fuzz_values s x ml mm ms) ->
  exists g' rows, fuzz_gauss_dolor now g = Done (g', rows).
Proof.
  intros Hv. apply (for_each_fuzz_succeeds now (fuzz_slots g)).
  - apply match_nodes_NoDup.
  - intros i Hi. destruct (fuzz_slots_have_value g i Hi) as (s & x & Hs & Hx & _).
    destruct (Hv i s x Hi Hs Hx) as (ml & mm & ms & Hvals).
    exists s, x, ml, mm, ms. auto.
Qed.

Lemma membership_expr_range (x : Value) (a : option Value) (b : Value) (m : R) :
  membership_expr x a b = Done (Some m) -> 0 < m <= 1.
Proof.
  unfold membership_expr.
  destruct (as_number x) as [xr|]; [|discriminate].
  destruct (as_number b) as [br|]; [|discriminate].
  destruct a as [av|]; [|discriminate].
  destruct (as_number av) as [ar|]; [|discriminate].
  unfold gauss_expr. destruct (Req_dec_T (2 * (br * br)) 0) as [|Hnz]; [discriminate|].
  cbn [mbind outcome_bind]. intros [= <-].
  split; [apply exp_pos|].
  rewrite <- exp_0. apply MembershipProps.exp_le_mono.
  assert (Hsq : 0 <= br * br) by apply Rle_0_sqr.
  assert (Hd : 0 < 2 * (br * br)).
  { destruct (Req_dec_T (br * br) 0) as [E|N]; [exfalso; apply Hnz; lra | lra]. }
  assert (Hn : 0 <= (xr - ar) * (xr - ar)) by apply Rle_0_sqr.
  pose proof (Rinv_0_lt_compat _ Hd) as Hi.
  unfold Rdiv.
  replace (- ((xr - ar) * (xr - ar)) * / (2 * (br * br)))
    with (- (((xr - ar) * (xr - ar)) * / (2 * (br * br)))) by ring.
  assert (0 <= (xr - ar) * (xr - ar) * / (2 * (br * br))) by (apply Rmult_le_pos; lra).
  lra.
Qed.






Lemma stale_store_slots : fuzz_slots FuzzScenarios.stale_store = [0%nat].
Proof. reflexivity. Qed.

Lemma stale_store_runs (now : nat) :
  exists g' rows, fuzz_gauss_dolor now FuzzScenarios.stale_store = Done (g', rows).
Proof.
  apply fuzz_gauss_dolor_succeeds. intros i s x Hi Hs Hx.
  rewrite stale_store_slots in Hi. apply list_elem_of_singleton in Hi as ->.
  assert (Hs0 : node_at FuzzScenarios.stale_store 0 = Some FuzzScenarios.stale_slot)
    by reflexivity.
  rewrite Hs0 in Hs. injection Hs as <-.
  assert (Hx0 : prop FuzzScenarios.stale_slot "valor_crisp" = Some (VFloat (75 / 10)))
    by reflexivity.
  rewrite Hx0 in Hx. injection Hx as <-.
  exists None,
    (Some (exp (- ((75 / 10 - 5) * (75 / 10 - 5)) / (2 * (15 / 10 * (15 / 10)))))),
    (Some (exp (- ((75 / 10 - 8) * (75 / 10 - 8)) / (2 * (1 / 10 ^ 6 * (1 / 10 ^ 6)))))).
  unfold fuzz_values. split; [reflexivity|]. split.
  - apply (FuzzProps.membership_expr_floats (75 / 10) 5 (15 / 10)). lra.
  - apply (FuzzProps.membership_expr_floats (75 / 10) 8 (1 / 10 ^ 6)). lra.
Qed.




End FuzzStatementProps.

(** ** logicaDifusa.py: how the statements of the script compose *)

Module PipelineProps.
Import Store Rounding RoundingProps App LogicaDifusa LogicaDifusaParams StoreProps.
Import FuzzStatementProps.













Lemma raw_store_dolor :
  match_nodes is_dolor_actual FuzzScenarios.raw_store = [0; 1]%nat.
Proof. reflexivity. Qed.


Lemma cy_round_nonneg (x : R) (d : nat) : 0 <= x -> 0 <= cy_round x d.
Proof.
  intros Hx. unfold cy_round. destruct (Rle_dec 0 x); [|contradiction].
  pose proof (pow10_pos d) as Hp.
  pose proof (Int_part_bounds (x * 10 ^ d + 1 / 2)) as Hb.
  assert (Ht : 0 <= x * 10 ^ d) by (apply Rmult_le_pos; lra).
  assert (Hz : (0 <= Int_part (x * 10 ^ d + 1 / 2))%Z).
  { apply Z.lt_succ_r, lt_IZR. rewrite succ_IZR. lra. }
  apply IZR_le in Hz.
  apply Rmult_le_pos; [exact Hz | left; apply Rinv_0_lt_compat; exact Hp].
Qed.

Lemma stored_membership_is_degree (x : Value) (a : option Value) (b : Value)
    (m : option R) :
  membership_expr x a b = Done m ->
  0 <= entropy_term (coalesce0 (float_prop m)) <= exp (-1).
Proof.
  intros Hm. apply EntropyProps.entropy_term_bounds.
  destruct m as [r|]; cbn.
  - exists r. split; [reflexivity|].
    pose proof (membership_expr_range x a b r Hm). lra.
  - exists 0. split; [reflexivity | lra].
Qed.

(** X14. After a run of [fuzz_gauss_dolor] that returns, the entropy that
    [entropy_dolor] stores on a slot the run has bound lies between 0 and
    [3 / (e ln 3)], up to the half unit of the rounding to 4 decimals. *)
Theorem entropy_after_fuzz (t1 t2 : nat) (g g' : Graph) (rows : list FuzzRow)
    (i : nat) :
  fuzz_gauss_dolor t1 g = Done (g', rows) ->
  i ∈ fuzz_slots g ->
  exists e,
    get_prop (entropy_dolor t2 g').1 i "entropia" = Some (VFloat e)
    /\ 0 <= e <= 3 * exp (-1) / ln 3 + 1 / 2 / 10 ^ 4.
Proof.
  intros Hrun Hi.
  destruct (fuzz_gauss_dolor_inv t1 g g' rows Hrun) as [_ Hnodes].
  destruct (fuzz_slots_have_value g i Hi) as (s & x & Hs & Hx & Hd).
  destruct (proj2 (Hnodes i) Hi s x Hs Hx) as (ml & mm & ms & (Hl & Hm & Hsv) & Hn).
  assert (Hin : i ∈ match_nodes is_dolor_actual g').
  { apply match_nodes_spec. exists (fuzz_fields t1 ml mm ms s). split; [exact Hn|].
    unfold is_dolor_actual, prop_is_str.
    rewrite prop_fuzz_fields_other; [exact Hd|].
    unfold fuzz_key. intros [H|[H|[H|H]]]; discriminate H. }
  exists (cy_round (Hnorm (slot_memberships (fuzz_fields t1 ml mm ms s))) 4).
  split; [apply (PrecisionProps.entropy_dolor_stores t2 g' i _ Hin Hn)|].
  assert (HH : 0 <= Hnorm (slot_memberships (fuzz_fields t1 ml mm ms s))
               <= 3 * exp (-1) / ln 3).
  { unfold slot_memberships.
    rewrite prop_fuzz_fields_leve, prop_fuzz_fields_moderado, prop_fuzz_fields_severo.
    rewrite EntropyProps.Hnorm_3.
    pose proof (stored_membership_is_degree _ _ _ _ Hl).
    pose proof (stored_membership_is_degree _ _ _ _ Hm).
    pose proof (stored_membership_is_degree _ _ _ _ Hsv).
    pose proof EntropyProps.ln_3_pos as H3.
    pose proof (Rinv_0_lt_compat _ H3) as Hi3.
    unfold Rdiv. split.
    - apply Rmult_le_pos; lra.
    - apply Rmult_le_compat_r; lra. }
  split; [apply cy_round_nonneg; lra|].
  pose proof (cy_round_close (Hnorm (slot_memberships (fuzz_fields t1 ml mm ms s))) 4) as Hc.
  pose proof (Rle_abs (cy_round (Hnorm (slot_memberships (fuzz_fields t1 ml mm ms s))) 4
                       - Hnorm (slot_memberships (fuzz_fields t1 ml mm ms s)))).
  lra.
Qed.

Lemma entropy_after_fuzz_witness :
  exists g' rows e,
    fuzz_gauss_dolor 1 FuzzScenarios.stale_store = Done (g', rows)
    /\ get_prop (entropy_dolor 2 g').1 0 "entropia" = Some (VFloat e)
    /\ 0 <= e <= 3 * exp (-1) / ln 3 + 1 / 2 / 10 ^ 4.
Proof.
  destruct (stale_store_runs 1) as (g' & rows & Hrun).
  destruct (entropy_after_fuzz 1 2 FuzzScenarios.stale_store g' rows 0 Hrun
              ltac:(rewrite stale_store_slots; left)) as (e & He & Hb).
  exists g', rows, e. auto.
Defined.

End PipelineProps.

(** ** logicaDifusa.py: the entropy statement on any store *)

Module EntropyStatementProps.
Import Store Rounding RoundingProps LogicaDifusa StoreProps.

Lemma entropy_slot_rels (now i : nat) (g : Graph) :
  rels (entropy_slot now i g).1 = rels g.
Proof.
  unfold entropy_slot. destruct (node_at g i); [|reflexivity].
  cbn [fst]. rewrite !set_prop_rels. reflexivity.
Qed.

Lemma entropy_slot_get_prop (now i j : nat) (k : string) (g : Graph) :
  k <> "entropia" -> k <> "entropia_updated_at" ->
  get_prop (entropy_slot now i g).1 j k = get_prop g j k.
Proof.
  intros H1 H2. unfold entropy_slot. destruct (node_at g i); [|reflexivity].
  cbn [fst]. rewrite !get_prop_set_prop_ne by (right; congruence). reflexivity.
Qed.

Lemma entropy_slot_dolor (now i : nat) (g : Graph) :
  match_nodes is_dolor_actual (entropy_slot now i g).1
  = match_nodes is_dolor_actual g.
Proof.
  unfold entropy_slot. destruct (node_at g i); [|reflexivity].
  cbn [fst].
  rewrite !match_nodes_set_prop
    by (apply RuleProps.is_dolor_actual_ignores; discriminate).
  reflexivity.
Qed.

Lemma entropy_fold_frame (now : nat) (l : list nat) (g : Graph) :
  rels (fold_left (fun h i => (entropy_slot now i h).1) l g) = rels g
  /\ match_nodes is_dolor_actual (fold_left (fun h i => (entropy_slot now i h).1) l g)
     = match_nodes is_dolor_actual g
  /\ forall j k, k <> "entropia" -> k <> "entropia_updated_at" ->
       get_prop (fold_left (fun h i => (entropy_slot now i h).1) l g) j k
       = get_prop g j k.
Proof.
  revert g. induction l as [|a l IH]; intros g; cbn [fold_left]; [auto|].
  destruct (IH (entropy_slot now a g).1) as (Hr & Hd & Hp).
  split; [rewrite Hr; apply entropy_slot_rels|].
  split; [rewrite Hd; apply entropy_slot_dolor|].
  intros j k H1 H2. rewrite Hp by assumption. apply entropy_slot_get_prop; assumption.
Qed.

Lemma entropy_dolor_keeps (now : nat) (g : Graph) :
  rels (entropy_dolor now g).1 = rels g
  /\ match_nodes is_dolor_actual (entropy_dolor now g).1
     = match_nodes is_dolor_actual g
  /\ forall j k, k <> "entropia" -> k <> "entropia_updated_at" ->
       get_prop (entropy_dolor now g).1 j k = get_prop g j k.
Proof.
  unfold entropy_dolor. rewrite PrecisionProps.entropy_dolor_fold.
  apply entropy_fold_frame.
Qed.

(** X15. [entropy_dolor] changes nothing but the entropy and its update
    time: the edges and every other property of every node, the
    memberships among them, are as before. *)
Theorem entropy_dolor_frame (now : nat) (g : Graph) :
  rels (entropy_dolor now g).1 = rels g
  /\ forall j k, k <> "entropia" -> k <> "entropia_updated_at" ->
       get_prop (entropy_dolor now g).1 j k = get_prop g j k.
Proof.
  destruct (entropy_dolor_keeps now g) as (Hr & _ & Hp). auto.
Qed.

Lemma entropy_dolor_frame_witness :
  get_prop (entropy_dolor 1 FuzzScenarios.raw_store).1 0 "valor_crisp"
  = get_prop FuzzScenarios.raw_store 0 "valor_crisp".
Proof.
  apply (entropy_dolor_frame 1 FuzzScenarios.raw_store); discriminate.
Defined.

Lemma entropy_term_no_positive_number (o : option Value) :
  (forall v r, o = Some v -> as_number v = Some r -> r <= 0) ->
  entropy_term (coalesce0 o) = 0.
Proof.
  intros H. unfold entropy_term, coalesce0.
  destruct o as [v|]; cbn [default from_option Datatypes.id].
  - destruct (as_number v) as [r|] eqn:Hv; [|reflexivity].
    pose proof (H v r eq_refl Hv).
    destruct (Rlt_dec 0 r); [lra | reflexivity].
  - cbn [as_number]. destruct (Rlt_dec 0 0); [lra | reflexivity].
Qed.

Lemma cy_round_0 (d : nat) : cy_round 0 d = 0.
Proof.
  pose proof (pow10_pos d).
  rewrite (cy_round_between 0 d 0); [unfold Rdiv; lra | lra | lra].
Qed.

(** X16. On a pain slot whose three memberships are each missing, no
    number, or a number that is not positive, [entropy_dolor] stores the
    entropy 0: a slot that was never fuzzified reads as one without
    uncertainty. *)
Theorem entropy_without_positive_memberships (now : nat) (g : Graph) (i : nat) :
  i ∈ match_nodes is_dolor_actual g ->
  (forall k v r, k = "mu_leve" \/ k = "mu_moderado" \/ k = "mu_severo" ->
     get_prop g i k = Some v -> as_number v = Some r -> r <= 0) ->
  get_prop (entropy_dolor now g).1 i "entropia" = Some (VFloat 0).
Proof.
  intros Hi Hm.
  pose proof Hi as Hi'. apply match_nodes_spec in Hi' as (s & Hs & _).
  rewrite (PrecisionProps.entropy_dolor_stores now g i s Hi Hs).
  assert (Hprop : forall k, get_prop g i k = prop s k).
  { intros k. unfold get_prop. rewrite Hs. reflexivity. }
  unfold slot_memberships. rewrite EntropyProps.Hnorm_3.
  rewrite !entropy_term_no_positive_number.
  - replace ((0 + 0 + 0) / ln 3) with 0 by (unfold Rdiv; lra).
    rewrite cy_round_0. reflexivity.
  - intros v r Hv. apply (Hm "mu_severo"); [tauto | rewrite Hprop; exact Hv].
  - intros v r Hv. apply (Hm "mu_moderado"); [tauto | rewrite Hprop; exact Hv].
  - intros v r Hv. apply (Hm "mu_leve"); [tauto | rewrite Hprop; exact Hv].
Qed.

Lemma entropy_without_positive_memberships_witness :
  get_prop (entropy_dolor 1 FuzzScenarios.raw_store).1 0 "entropia" = Some (VFloat 0).
Proof.
  apply (entropy_without_positive_memberships 1 FuzzScenarios.raw_store 0).
  - rewrite PipelineProps.raw_store_dolor. left.
  - intros k v r [-> | [-> | ->]] Hv;
      (assert (H0 : forall k', k' = "mu_leve" \/ k' = "mu_moderado" \/ k' = "mu_severo" ->
                 get_prop FuzzScenarios.raw_store 0 k' = None)
         by (intros k' [-> | [-> | ->]]; reflexivity));
      rewrite H0 in Hv by tauto; discriminate Hv.
Defined.

(** X17. Running [entropy_dolor] again on the store it has left stores the
    same entropy on every pain slot: the value depends on the memberships
    only, which the statement does not touch. *)
Theorem entropy_dolor_recomputed_is_same (t1 t2 : nat) (g : Graph) (i : nat) :
  i ∈ match_nodes is_dolor_actual g ->
  get_prop (entropy_dolor t2 (entropy_dolor t1 g).1).1 i "entropia"
  = get_prop (entropy_dolor t1 g).1 i "entropia".
Proof.
  intros Hi.
  destruct (entropy_dolor_keeps t1 g) as (_ & Hd & Hp).
  pose proof Hi as Hi0. apply match_nodes_spec in Hi0 as (s & Hs & _).
  assert (Hi1 : i ∈ match_nodes is_dolor_actual (entropy_dolor t1 g).1)
    by (rewrite Hd; exact Hi).
  pose proof Hi1 as Hi2. apply match_nodes_spec in Hi2 as (s1 & Hs1 & _).
  rewrite (PrecisionProps.entropy_dolor_stores t2 _ i s1 Hi1 Hs1).
  rewrite (PrecisionProps.entropy_dolor_stores t1 g i s Hi Hs).
  assert (Hsame : forall k, k <> "entropia" -> k <> "entropia_updated_at" ->
            prop s1 k = prop s k).
  { intros k H1 H2. pose proof (Hp i k H1 H2) as H.
    unfold get_prop in H. rewrite Hs1, Hs in H. exact H. }
  unfold slot_memberships. rewrite !Hsame by discriminate. reflexivity.
Qed.

Lemma entropy_dolor_recomputed_is_same_witness :
  get_prop (entropy_dolor 2 (entropy_dolor 1 FuzzScenarios.raw_store).1).1 0 "entropia"
  = get_prop (entropy_dolor 1 FuzzScenarios.raw_store).1 0 "entropia".
Proof.
  apply (entropy_dolor_recomputed_is_same 1 2 FuzzScenarios.raw_store 0).
  rewrite PipelineProps.raw_store_dolor. left.
Defined.

End EntropyStatementProps.

(** ** logicaDifusa.py: the high-risk rule on any store *)

Module RuleStatementProps.
Import Store LogicaDifusa StoreProps RuleProps Scenarios.

Lemma get_prop_add_node (n : Node) (g : Graph) (j : nat) (k : string) :
  (j < length (nodes g))%nat -> get_prop (add_node n g) j k = get_prop g j k.
Proof.
  intros Hj. unfold get_prop. rewrite node_at_add_node_lt by exact Hj. reflexivity.
Qed.

Lemma fired_keeps (now : nat) (g : Graph) :
  rels (fired now g) = rels g
  /\ (length (nodes g) <= length (nodes (fired now g)))%nat
  /\ forall j k, (j < length (nodes g))%nat -> ~ alert_key k ->
       get_prop (fired now g) j k = get_prop g j k.
Proof.
  unfold fired, riesgo_alto_fire.
  destruct (merge_node "Alerta" "codigo" codigo_riesgo_alto (fun ps => ps) g)
    as [g1 als] eqn:Hm.
  cbn [fst].
  assert (H1 : rels g1 = rels g
               /\ (length (nodes g) <= length (nodes g1))%nat
               /\ forall j k, (j < length (nodes g))%nat ->
                    get_prop g1 j k = get_prop g j k).
  { destruct (alertas codigo_riesgo_alto g) as [|a l] eqn:Ha.
    - rewrite merge_node_new in Hm by exact Ha. injection Hm as <- _.
      split; [reflexivity|]. split; [cbn; rewrite length_app; lia|].
      intros j k Hj. apply get_prop_add_node. exact Hj.
    - rewrite merge_node_found in Hm by (rewrite Ha; discriminate).
      injection Hm as <- _. auto. }
  destruct H1 as (Hr & Hl & Hp).
  split; [|split].
  - rewrite (set_all_preserves rels); [exact Hr|].
    intros i k v h _. apply set_prop_rels.
  - rewrite (set_all_preserves (fun h => length (nodes h))); [exact Hl|].
    intros i k v h _. apply set_prop_length.
  - intros j k Hj Hk.
    rewrite (set_all_preserves (fun h => get_prop h j k)); [apply Hp; exact Hj|].
    intros i k' v h Hk'. apply get_prop_set_prop_ne. right. intros ->. contradiction.
Qed.

Lemma fired_fold_keeps (now : nat) (l : list (nat * nat)) (g : Graph) :
  rels (fold_left (fun h _ => fired now h) l g) = rels g
  /\ (length (nodes g) <= length (nodes (fold_left (fun h _ => fired now h) l g)))%nat
  /\ forall j k, (j < length (nodes g))%nat -> ~ alert_key k ->
       get_prop (fold_left (fun h _ => fired now h) l g) j k = get_prop g j k.
Proof.
  revert g. induction l as [|x l IH]; intros g; cbn [fold_left]; [auto|].
  destruct (fired_keeps now g) as (Hr & Hl & Hp).
  destruct (IH (fired now g)) as (Hr' & Hl' & Hp').
  split; [rewrite Hr'; exact Hr|]. split; [lia|].
  intros j k Hj Hk. rewrite Hp' by (try lia; exact Hk). apply Hp; assumption.
Qed.

(** X18. [rule_alerta_riesgo_alto] never links the alert to anything and
    never touches what the slots hold: the edges are as before, and so is
    every property of every node of the store other than the four the
    rule sets on the alert ([ts], [severidad], [descripcion],
    [resuelta]). *)
Theorem rule_alerta_riesgo_alto_frame (now : nat) (g : Graph) :
  rels (rule_alerta_riesgo_alto now g).1 = rels g
  /\ forall j k, (j < length (nodes g))%nat -> ~ alert_key k ->
       get_prop (rule_alerta_riesgo_alto now g).1 j k = get_prop g j k.
Proof.
  rewrite rule_graph.
  destruct (fired_fold_keeps now (riesgo_alto_rows g) g) as (Hr & _ & Hp). auto.
Qed.

Lemma rule_alerta_riesgo_alto_frame_witness :
  get_prop (rule_alerta_riesgo_alto 1 (fuzzified (75 / 100) (62 / 100))).1 0 "mu_severo"
  = get_prop (fuzzified (75 / 100) (62 / 100)) 0 "mu_severo".
Proof.
  apply (proj2 (rule_alerta_riesgo_alto_frame 1 (fuzzified (75 / 100) (62 / 100)))).
  - cbn. lia.
  - unfold alert_key. intros [H|[H|[H|H]]]; discriminate H.
Defined.

(** The value a threshold is compared with: the number a property holds,
    if it holds one. *)
Lemma cy_ge_coalesce (o : option Value) (t : R) :
  0 < t ->
  (cy_ge (coalesce0 o) t = true <-> exists r, o ≫= as_number = Some r /\ t <= r).
Proof.
  intros Ht. unfold cy_ge, coalesce0. destruct o as [v|]; cbn.
  - destruct (as_number v) as [r|].
    + destruct (Rle_dec t r); split.
      * intros _. eauto.
      * reflexivity.
      * discriminate.
      * intros (r' & [= <-] & Hle). contradiction.
    + split; [discriminate | intros (r & H & _); discriminate H].
  - destruct (Rle_dec t 0); [lra|].
    split; [discriminate | intros (r & H & _); discriminate H].
Qed.

Lemma riesgo_alto_rows_nil_iff (g : Graph) :
  riesgo_alto_rows g = [] <->
  ~ exists sd sm r1 r2,
      sd ∈ match_nodes is_dolor_actual g /\ sm ∈ match_nodes is_mejora_observada g
      /\ get_prop g sd "mu_severo" ≫= as_number = Some r1 /\ umbral_dolor <= r1
      /\ get_prop g sm "mu_baja" ≫= as_number = Some r2 /\ umbral_mejora <= r2.
Proof.
  assert (Hd : 0 < umbral_dolor) by (unfold umbral_dolor; lra).
  assert (Hm : 0 < umbral_mejora) by (unfold umbral_mejora; lra).
  split.
  - intros Hnil (sd & sm & r1 & r2 & Hsd & Hsm & H1 & Hr1 & H2 & Hr2).
    pose proof Hsd as Hsd'. apply match_nodes_spec in Hsd' as (nd & Hnd & _).
    pose proof Hsm as Hsm'. apply match_nodes_spec in Hsm' as (nm & Hnm & _).
    assert (Hin : (sd, sm) ∈ riesgo_alto_rows g).
    { apply (riesgo_alto_rows_intro g sd sm nd nm); try assumption.
      unfold get_prop in H1, H2. rewrite Hnd in H1. rewrite Hnm in H2. cbn in H1, H2.
      unfold riesgo_alto_where. apply andb_true_iff. split.
      - apply cy_ge_coalesce; eauto.
      - apply cy_ge_coalesce; eauto. }
    rewrite Hnil in Hin. inversion Hin.
  - intros Hno. unfold riesgo_alto_rows.
    apply bind_nil. intros sd Hsd. apply bind_nil. intros sm Hsm.
    unfold riesgo_alto_row.
    destruct (node_at g sd) as [nd|] eqn:Hnd; [|reflexivity].
    destruct (node_at g sm) as [nm|] eqn:Hnm; [|reflexivity].
    destruct (riesgo_alto_where nd nm) eqn:Hw; [|reflexivity].
    exfalso. apply Hno. unfold riesgo_alto_where in Hw.
    apply andb_true_iff in Hw as [H1 H2].
    apply cy_ge_coalesce in H1 as (r1 & H1 & Hr1); [|exact Hd].
    apply cy_ge_coalesce in H2 as (r2 & H2 & Hr2); [|exact Hm].
    exists sd, sm, r1, r2. unfold get_prop. rewrite Hnd, Hnm. cbn.
    repeat split; assumption.
Qed.

(** X19. [rule_alerta_riesgo_alto] leaves the store as it is and returns
    no row exactly when no pain slot holds a number of at least 0.7 as
    "severo" together with an improvement slot that holds a number of at
    least 0.6 as "baja"; a membership that is missing or no number never
    fires the rule, and the thresholds themselves do. *)
Theorem rule_alerta_riesgo_alto_fires_iff (now : nat) (g : Graph) :
  rule_alerta_riesgo_alto now g = (g, []) <->
  ~ exists sd sm r1 r2,
      sd ∈ match_nodes is_dolor_actual g /\ sm ∈ match_nodes is_mejora_observada g
      /\ get_prop g sd "mu_severo" ≫= as_number = Some r1 /\ 7 / 10 <= r1
      /\ get_prop g sm "mu_baja" ≫= as_number = Some r2 /\ 6 / 10 <= r2.
Proof.
  change (7 / 10) with umbral_dolor. change (6 / 10) with umbral_mejora.
  rewrite <- riesgo_alto_rows_nil_iff. split.
  - intros Hrun. destruct (riesgo_alto_rows g) as [|x l] eqn:Hrows; [reflexivity|].
    assert (Hne : riesgo_alto_rows g <> []) by (rewrite Hrows; discriminate).
    apply (rule_returns_rows now) in Hne. rewrite Hrun in Hne.
    contradiction Hne. reflexivity.
  - apply rule_no_rows.
Qed.

Lemma rule_alerta_riesgo_alto_fires_iff_witness :
  rule_alerta_riesgo_alto 1 (fuzzified (7 / 10) (6 / 10))
  <> (fuzzified (7 / 10) (6 / 10), []).
Proof.
  intros Hrun.
  apply (proj1 (rule_alerta_riesgo_alto_fires_iff 1 (fuzzified (7 / 10) (6 / 10)))) in Hrun.
  apply Hrun. exists 0%nat, 1%nat, (7 / 10), (6 / 10).
  split; [rewrite fuzzified_dolor; left|].
  split; [rewrite fuzzified_mejora; left|].
  split; [reflexivity|]. split; [lra|]. split; [reflexivity | lra].
Defined.

End RuleStatementProps.

(** ** esguincestorceduras.py: the immediate-referral rule on any store *)

Module ReglaStatementProps.
Import Store Monitoreo StoreProps RuleProps MonitoreoProps ReglaScenarios.

Lemma regla_candidate_inv (g : Graph) (r : Rel) (ns : Node) :
  regla_candidate g r = Some ns ->
  exists np, node_at g r.1.1 = Some np /\ node_at g r.2 = Some ns
             /\ r.1.2 = "PRESENTA_SINTOMA"
             /\ has_label "Paciente" np = true /\ has_label "Sintoma" ns = true.
Proof.
  unfold regla_candidate.
  destruct (node_at g r.1.1) as [np|]; [|discriminate].
  destruct (node_at g r.2) as [ns'|]; [|discriminate].
  destruct (String.eqb r.1.2 "PRESENTA_SINTOMA" && has_label "Paciente" np
            && has_label "Sintoma" ns') eqn:Hc; [|discriminate].
  intros [= <-].
  apply andb_true_iff in Hc as [Hc Hs]. apply andb_true_iff in Hc as [Ht Hp].
  apply String.eqb_eq in Ht. exists np. auto.
Qed.

Lemma regla_where_true (ns : Node) :
  regla_where ns = Some true <->
  exists nombre, prop ns "nombre" = Some (VStr nombre)
                 /\ toLower nombre = "dolor"
                 /\ prop ns "intensidad" = Some (VStr "Intenso").
Proof.
  unfold regla_where, prop_is_str.
  destruct (prop ns "nombre") as [[| |nombre| |]|];
    try (split; [discriminate | intros (n & H & _); discriminate H]).
  split.
  - intros [= H]. apply andb_true_iff in H as [Hi Hn].
    apply String.eqb_eq in Hn. exists nombre. split; [reflexivity|]. split; [exact Hn|].
    destruct (prop ns "intensidad") as [[| |i| |]|]; try discriminate Hi.
    apply String.eqb_eq in Hi. rewrite Hi. reflexivity.
  - intros (n & [= <-] & Hn & Hi). rewrite Hi, Hn. reflexivity.
Qed.

(** The patients of the rows, edge by edge. *)
Lemma regla_rows_of_spec (g : Graph) (l : list Rel) (ps : list nat) (p : nat) :
  regla_rows_of g l = Some ps ->
  (p ∈ ps <-> exists r ns, r ∈ l /\ r.1.1 = p /\ regla_candidate g r = Some ns
                           /\ regla_where ns = Some true).
Proof.
  revert ps. induction l as [|r l IH]; intros ps; cbn [regla_rows_of].
  - intros [= <-]. split; [intros H; inversion H|].
    intros (r & ns & H & _). inversion H.
  - destruct (regla_candidate g r) as [ns|] eqn:Hc.
    + destruct (regla_where ns) as [b|] eqn:Hw; [|discriminate].
      destruct (regla_rows_of g l) as [rest|]; [|discriminate].
      cbn [mbind option_bind]. intros [= <-].
      specialize (IH rest eq_refl). split.
      * intros Hp. destruct b.
        -- apply elem_of_cons in Hp as [->|Hp].
           ++ exists r, ns. split; [left|]. auto.
           ++ apply IH in Hp as (r' & ns' & Hin & Hrest).
              exists r', ns'. split; [right; exact Hin | exact Hrest].
        -- apply IH in Hp as (r' & ns' & Hin & Hrest).
           exists r', ns'. split; [right; exact Hin | exact Hrest].
      * intros (r' & ns' & Hin & Hp & Hc' & Hw').
        apply elem_of_cons in Hin as [->|Hin].
        -- rewrite Hc in Hc'. injection Hc' as <-. rewrite Hw in Hw'.
           injection Hw' as ->. rewrite Hp. left.
        -- assert (Hrest : p ∈ rest) by (apply IH; eauto 6).
           destruct b; [right|]; exact Hrest.
    + intros Hrows. specialize (IH ps Hrows). split.
      * intros Hp. apply IH in Hp as (r' & ns' & Hin & Hrest).
        exists r', ns'. split; [right; exact Hin | exact Hrest].
      * intros (r' & ns' & Hin & Hp & Hc' & Hw').
        apply elem_of_cons in Hin as [->|Hin]; [congruence|].
        apply IH. eauto 6.
Qed.

(** X20. The string-match rule binds a patient exactly when the patient
    presents a Sintoma whose name lowers to "dolor" and whose intensity is
    the text "Intenso". *)
Theorem regla_rows_characterised (g : Graph) (ps : list nat) (p : nat) :
  regla_rows g = Some ps ->
  (p ∈ ps <->
   exists s np ns nombre,
     (p, "PRESENTA_SINTOMA", s) ∈ rels g
     /\ node_at g p = Some np /\ has_label "Paciente" np = true
     /\ node_at g s = Some ns /\ has_label "Sintoma" ns = true
     /\ prop ns "nombre" = Some (VStr nombre) /\ toLower nombre = "dolor"
     /\ prop ns "intensidad" = Some (VStr "Intenso")).
Proof.
  intros Hrows. rewrite (regla_rows_of_spec g (rels g) ps p Hrows). split.
  - intros (r & ns & Hin & Hp & Hc & Hw).
    destruct (regla_candidate_inv g r ns Hc) as (np & Hnp & Hns & Ht & Hlp & Hls).
    apply regla_where_true in Hw as (nombre & Hn & Hlow & Hi).
    destruct r as [[p' t] s]. cbn [fst snd] in *. subst.
    exists s, np, ns, nombre. repeat split; assumption.
  - intros (s & np & ns & nombre & Hin & Hnp & Hlp & Hns & Hls & Hn & Hlow & Hi).
    exists (p, "PRESENTA_SINTOMA", s), ns.
    split; [exact Hin|]. split; [reflexivity|]. split.
    + unfold regla_candidate. cbn [fst snd]. rewrite Hnp, Hns, Hlp, Hls. reflexivity.
    + apply regla_where_true. eauto.
Qed.

Example resolved_ward_rows : regla_rows resolved_ward = Some [0%nat].
Proof. vm_compute. reflexivity. Qed.

Lemma regla_rows_characterised_witness :
  0%nat ∈ [0%nat] <->
  exists s np ns nombre,
    (0%nat, "PRESENTA_SINTOMA", s) ∈ rels resolved_ward
    /\ node_at resolved_ward 0 = Some np /\ has_label "Paciente" np = true
    /\ node_at resolved_ward s = Some ns /\ has_label "Sintoma" ns = true
    /\ prop ns "nombre" = Some (VStr nombre) /\ toLower nombre = "dolor"
    /\ prop ns "intensidad" = Some (VStr "Intenso").
Proof.
  exact (regla_rows_characterised resolved_ward [0%nat] 0 resolved_ward_rows).
Defined.

(** X21. On a store none of whose Sintoma nodes has a name that lowers to
    "dolor", a severe "Hematoma" among them, the rule returns no row and
    leaves the store as it is. *)
Theorem regla_never_fires_without_dolor (now : nat) (g : Graph) :
  (forall i ns, node_at g i = Some ns -> has_label "Sintoma" ns = true ->
     exists nombre, prop ns "nombre" = Some (VStr nombre) /\ toLower nombre <> "dolor") ->
  regla_hematoma_severo now g = Some (g, []).
Proof.
  intros Hnames.
  assert (Hrows : forall l, regla_rows_of g l = Some []).
  { induction l as [|r l IH]; cbn [regla_rows_of]; [reflexivity|].
    destruct (regla_candidate g r) as [ns|] eqn:Hc; [|exact IH].
    destruct (regla_candidate_inv g r ns Hc) as (np & _ & Hns & _ & _ & Hls).
    destruct (Hnames _ ns Hns Hls) as (nombre & Hn & Hlow).
    unfold regla_where. rewrite Hn.
    apply String.eqb_neq in Hlow. rewrite Hlow, andb_false_r, IH. reflexivity. }
  unfold regla_hematoma_severo, regla_rows. rewrite Hrows. reflexivity.
Qed.

Lemma regla_never_fires_without_dolor_witness :
  regla_hematoma_severo 1 hematoma_ward = Some (hematoma_ward, []).
Proof.
  apply (regla_never_fires_without_dolor 1 hematoma_ward).
  intros i ns Hi Hl. exists "Hematoma".
  destruct i as [|[|i]]; cbn in Hi.
  - injection Hi as <-. discriminate Hl.
  - injection Hi as <-. split; [reflexivity | discriminate].
  - discriminate Hi.
Defined.

(** X22. The string-match rule is an idempotent upsert: run again, at any
    later time, on the store a run has left, the statement returns and
    leaves that store exactly as it is. *)
Theorem regla_hematoma_severo_idempotent (t1 t2 : nat) (g g1 : Graph)
    (out1 : list ReglaRow) :
  regla_hematoma_severo t1 g = Some (g1, out1) ->
  exists out2, regla_hematoma_severo t2 g1 = Some (g1, out2).
Proof. exact (regla_hematoma_idempotent t1 t2 g g1 out1). Qed.

Lemma regla_hematoma_severo_idempotent_witness :
  exists g1 out1 out2,
    regla_hematoma_severo 1 Scenarios.ward = Some (g1, out1)
    /\ regla_hematoma_severo 2 g1 = Some (g1, out2).
Proof.
  destruct (regla_hematoma_severo_runs 1 Scenarios.ward [0%nat] ward_rows)
    as (out1 & H1).
  destruct (regla_hematoma_severo_idempotent 1 2 _ _ _ H1) as (out2 & H2).
  exists (run 1 [0%nat] Scenarios.ward), out1, out2. auto.
Defined.



(** X24. Run on a store that already has an alert of its code, the rule
    creates no node and changes none: the alert keeps its creation time
    and its resolved flag, whatever they are. *)
Theorem regla_hematoma_severo_keeps_alert (now : nat) (g g1 : Graph)
    (out : list ReglaRow) :
  alertas codigo_derivacion g <> [] ->
  regla_hematoma_severo now g = Some (g1, out) ->
  nodes g1 = nodes g.
Proof.
  intros Hne Hrun.
  destruct (regla_hematoma_severo_graph now g g1 out Hrun) as (ps & _ & ->).
  apply (run_alertas_found now ps g Hne).
Qed.

Example resolved_ward_alert : alertas codigo_derivacion resolved_ward = [2%nat].
Proof. vm_compute. reflexivity. Qed.

Lemma regla_hematoma_severo_keeps_alert_witness :
  exists g1 out,
    regla_hematoma_severo 9 resolved_ward = Some (g1, out)
    /\ nodes g1 = nodes resolved_ward.
Proof.
  destruct (regla_hematoma_severo_runs 9 resolved_ward [0%nat] resolved_ward_rows)
    as (out & Hrun).
  exists (run 9 [0%nat] resolved_ward), out. split; [exact Hrun|].
  apply (regla_hematoma_severo_keeps_alert 9 resolved_ward _ out); [|exact Hrun].
  rewrite resolved_ward_alert. discriminate.
Defined.

(** X25. A run of the rule that returns keeps every edge of the store and
    leaves every bound patient linked by REQUIERE_ATENCION to every alert
    of the code. *)
Theorem regla_hematoma_severo_links (now : nat) (g g1 : Graph) (out : list ReglaRow)
    (ps : list nat) :
  regla_hematoma_severo now g = Some (g1, out) ->
  regla_rows g = Some ps ->
  (forall r, r ∈ rels g -> r ∈ rels g1)
  /\ (forall p a, p ∈ ps -> a ∈ alertas codigo_derivacion g1 ->
        (p, "REQUIERE_ATENCION", a) ∈ rels g1).
Proof.
  intros Hrun Hrows.
  destruct (regla_hematoma_severo_graph now g g1 out Hrun) as (ps' & Hrows' & ->).
  rewrite Hrows in Hrows'. injection Hrows' as <-.
  split.
  - intros r Hr. apply run_mono. exact Hr.
  - intros p a Hp Ha. apply (run_links now ps g p a Hp Ha).
Qed.

Lemma regla_hematoma_severo_links_witness :
  exists g1 out,
    regla_hematoma_severo 9 resolved_ward = Some (g1, out)
    /\ (forall r, r ∈ rels resolved_ward -> r ∈ rels g1)
    /\ (forall p a, p ∈ [0%nat] -> a ∈ alertas codigo_derivacion g1 ->
          (p, "REQUIERE_ATENCION", a) ∈ rels g1).
Proof.
  destruct (regla_hematoma_severo_runs 9 resolved_ward [0%nat] resolved_ward_rows)
    as (out & Hrun).
  exists (run 9 [0%nat] resolved_ward), out. split; [exact Hrun|].
  exact (regla_hematoma_severo_links 9 resolved_ward _ out [0%nat] Hrun resolved_ward_rows).
Defined.

End ReglaStatementProps.

(** ** run_many: the statements of a script *)

Module RunManyProps.
Import RunMany.

Lemma lstrip_head (s : str) (c : N) (t : str) :
  lstrip s = c :: t -> is_space c = false.
Proof.
  induction s as [|a s IH]; cbn [lstrip]; [discriminate|].
  destruct (is_space a) eqn:Ha; [exact IH|].
  intros [= <- <-]. exact Ha.
Qed.

Lemma lstrip_fixed (c : N) (t : str) :
  is_space c = false -> lstrip (c :: t) = c :: t.
Proof. intros H. cbn [lstrip]. rewrite H. reflexivity. Qed.

Lemma lstrip_idem (s : str) : lstrip (lstrip s) = lstrip s.
Proof.
  destruct (lstrip s) as [|c t] eqn:E; [reflexivity|].
  apply lstrip_fixed, (lstrip_head _ _ _ E).
Qed.

Lemma lstrip_app_nonspace (u : str) (c : N) (v : str) :
  is_space c = false -> lstrip (u ++ c :: v) = lstrip u ++ c :: v.
Proof.
  intros Hc. induction u as [|a u IH]; cbn [lstrip app].
  - rewrite Hc. reflexivity.
  - destruct (is_space a); [exact IH | reflexivity].
Qed.

Lemma lstrip_suffix (s : str) : exists pre, s = pre ++ lstrip s.
Proof.
  induction s as [|a s [pre IH]]; cbn [lstrip].
  - exists []. reflexivity.
  - destruct (is_space a).
    + exists (a :: pre). cbn [app]. f_equal. exact IH.
    + exists []. reflexivity.
Qed.

Lemma rstrip_nil : rstrip [] = [].
Proof. reflexivity. Qed.

Lemma rstrip_app_nonspace (x : str) (c : N) (y : str) :
  is_space c = false -> rstrip (x ++ c :: y) = x ++ c :: rstrip y.
Proof.
  intros Hc. unfold rstrip.
  rewrite rev_app_distr. cbn [rev]. rewrite <- app_assoc. cbn [app].
  rewrite (lstrip_app_nonspace _ _ _ Hc).
  rewrite rev_app_distr. cbn [rev]. rewrite rev_involutive.
  rewrite <- app_assoc. reflexivity.
Qed.

Lemma rstrip_idem (s : str) : rstrip (rstrip s) = rstrip s.
Proof. unfold rstrip. rewrite rev_involutive, lstrip_idem. reflexivity. Qed.

Lemma rstrip_prefix (s : str) : exists suf, s = rstrip s ++ suf.
Proof.
  unfold rstrip. destruct (lstrip_suffix (rev s)) as [pre E].
  exists (rev pre). rewrite <- rev_app_distr, <- E, rev_involutive. reflexivity.
Qed.

Lemma lstrip_rstrip_lstrip (s : str) : lstrip (rstrip (lstrip s)) = rstrip (lstrip s).
Proof.
  destruct (lstrip s) as [|c t] eqn:E; [reflexivity|].
  pose proof (lstrip_head _ _ _ E) as Hc.
  pose proof (rstrip_app_nonspace [] c t Hc) as Hr. cbn [app] in Hr.
  rewrite Hr. apply lstrip_fixed, Hc.
Qed.

Lemma strip_idem (s : str) : strip (strip s) = strip s.
Proof.
  unfold strip. rewrite lstrip_rstrip_lstrip, rstrip_idem. reflexivity.
Qed.

Lemma strip_fixed (s : str) : lstrip s = s -> rstrip s = s -> strip s = s.
Proof. intros Hl Hr. unfold strip. rewrite Hl. exact Hr. Qed.

Lemma has_semicolon_cons (c : N) (s : str) :
  has_semicolon (c :: s) = (c =? 59)%N || has_semicolon s.
Proof. unfold has_semicolon. cbn [existsb]. rewrite N.eqb_sym. reflexivity. Qed.

Lemma has_semicolon_app (s t : str) :
  has_semicolon (s ++ t) = has_semicolon s || has_semicolon t.
Proof. apply existsb_app. Qed.

Lemma has_semicolon_strip (s : str) :
  has_semicolon s = false -> has_semicolon (strip s) = false.
Proof.
  intros H. unfold strip.
  destruct (lstrip_suffix s) as [pre E1].
  destruct (rstrip_prefix (lstrip s)) as [suf E2].
  rewrite E1, E2, !has_semicolon_app in H.
  destruct (has_semicolon (rstrip (lstrip s))); [|reflexivity].
  rewrite orb_true_r in H. discriminate.
Qed.

Lemma split_semicolon_not_nil (s : str) : split_semicolon s <> [].
Proof.
  destruct s as [|c s]; cbn [split_semicolon]; [discriminate|].
  destruct (c =? 59)%N; [discriminate|].
  destruct (split_semicolon s); discriminate.
Qed.

Lemma split_semicolon_parts (s p : str) :
  In p (split_semicolon s) -> has_semicolon p = false.
Proof.
  revert p. induction s as [|c s IH]; intros p; cbn [split_semicolon].
  - intros [<-|[]]. reflexivity.
  - destruct (c =? 59)%N eqn:Hc.
    + intros [<-|H]; [reflexivity | exact (IH _ H)].
    + destruct (split_semicolon s) as [|q qs] eqn:E.
      * intros [<-|[]]. rewrite has_semicolon_cons, Hc. reflexivity.
      * intros [<-|H].
        -- rewrite has_semicolon_cons, Hc. apply IH. left. reflexivity.
        -- apply IH. right. exact H.
Qed.

Lemma split_semicolon_app (s rest : str) :
  has_semicolon s = false ->
  split_semicolon (s ++ 59%N :: rest) = s :: split_semicolon rest.
Proof.
  induction s as [|c s IH]; intros H; cbn [app split_semicolon].
  - reflexivity.
  - rewrite has_semicolon_cons in H. apply orb_false_elim in H as [Hc Hs].
    rewrite Hc, (IH Hs). reflexivity.
Qed.

Lemma split_semicolon_none (s : str) :
  has_semicolon s = false -> split_semicolon s = [s].
Proof.
  induction s as [|c s IH]; intros H; cbn [split_semicolon]; [reflexivity|].
  rewrite has_semicolon_cons in H. apply orb_false_elim in H as [Hc Hs].
  rewrite Hc, (IH Hs). reflexivity.
Qed.

Lemma join_lines_cons (x : str) (l : list str) :
  l <> [] -> join_lines (x :: l) = x ++ 10%N :: join_lines l.
Proof. destruct l; [congruence | reflexivity]. Qed.

Lemma has_semicolon_join (l : list str) :
  Forall (fun s => has_semicolon s = false) l -> has_semicolon (join_lines l) = false.
Proof.
  induction 1 as [|x l Hx Hl IH]; [reflexivity|].
  destruct l as [|y l]; [exact Hx|].
  rewrite join_lines_cons by discriminate.
  rewrite has_semicolon_app, Hx, has_semicolon_cons. exact IH.
Qed.

Lemma in_removelast {A} (l : list A) (x : A) : In x (removelast l) -> In x l.
Proof.
  intros H. destruct l as [|a l]; [destruct H|].
  rewrite (app_removelast_last a (l := a :: l)) by discriminate.
  apply in_or_app. left. exact H.
Qed.

Lemma in_last {A} (l : list A) (d : A) : l <> [] -> In (List.last l d) l.
Proof.
  intros H. rewrite (app_removelast_last d H) at 2.
  apply in_or_app. right. left. reflexivity.
Qed.

Lemma truthy_true (s : str) : truthy s = true <-> s <> [].
Proof. destruct s; cbn; split; congruence. Qed.

Lemma step_inv (acc : list str * list str) (line : str) :
  loop_inv acc -> loop_inv (step acc line).
Proof.
  destruct acc as [sts cur]. intros [Hs Hc]. cbn [fst snd] in Hs, Hc.
  unfold step.
  destruct (negb (truthy (strip line))); [split; assumption|].
  destruct (is_comment (strip line)); [split; assumption|].
  destruct (has_semicolon line) eqn:Hl.
  - assert (Hparts : forall p, In p (split_semicolon (join_lines (cur ++ [line]))) ->
                               has_semicolon p = false)
      by (intros p; apply split_semicolon_parts).
    split; cbn [fst snd].
    + apply Forall_app. split; [exact Hs|].
      apply Forall_forall. intros s Hin.
      apply list_elem_of_filter in Hin as [Ht Hin].
      apply list_elem_of_fmap in Hin as [p [-> Hp]].
      apply list_elem_of_In, in_removelast, Hparts in Hp.
      repeat split.
      * apply truthy_true, Ht.
      * apply strip_idem.
      * apply has_semicolon_strip, Hp.
    + match goal with |- context [if ?b then _ else _] => destruct b end;
        [|constructor].
      constructor; [|constructor].
      apply Hparts, in_last, split_semicolon_not_nil.
  - split; cbn [fst snd]; [exact Hs|].
    apply Forall_app. split; [exact Hc|]. constructor; [exact Hl | constructor].
Qed.

Lemma fold_step_inv (lines : list str) (acc : list str * list str) :
  loop_inv acc -> loop_inv (fold_left step lines acc).
Proof.
  revert acc. induction lines as [|l lines IH]; intros acc H; cbn [fold_left].
  - exact H.
  - apply IH, step_inv, H.
Qed.

Lemma statements_of_fold (script : str) :
  statements_of script =
  let acc := fold_left step (splitlines script) ([], []) in
  if truthy (strip (join_lines acc.2)) then acc.1 ++ [strip (join_lines acc.2)]
  else acc.1.
Proof.
  unfold statements_of. destruct (fold_left step (splitlines script) ([], [])).
  reflexivity.
Qed.

(** X26. Every statement [run_many] builds from a script is not empty,
    has no white space at either end and holds no semicolon: the script
    is cut at every semicolon, also at one inside a string literal. *)
Theorem statements_are_clean (script s : str) :
  In s (statements_of script) -> clean_statement s.
Proof.
  rewrite statements_of_fold.
  pose proof (fold_step_inv (splitlines script) ([], [])) as H.
  destruct H as [Hs Hc]; [split; constructor|].
  cbv zeta.
  destruct (fold_left step (splitlines script) ([], [])) as [sts cur].
  cbn [fst snd] in *.
  assert (Hin : forall s, In s sts -> clean_statement s)
    by (apply List.Forall_forall; exact Hs).
  destruct (truthy (strip (join_lines cur))) eqn:Ht; [|apply Hin].
  intros H. apply in_app_or in H as [H|[<-|[]]]; [exact (Hin _ H)|].
  repeat split.
  - apply truthy_true, Ht.
  - apply strip_idem.
  - apply has_semicolon_strip, has_semicolon_join, Hc.
Qed.

Lemma statements_are_clean_witness :
  clean_statement (lit "SET a.x = 'u").
Proof.
  apply (statements_are_clean (lit "SET a.x = 'u;v';")).
  vm_compute. left. reflexivity.
Defined.


Lemma lstrip_suffix_spaces (s : str) :
  exists pre, s = pre ++ lstrip s /\ lstrip pre = [].
Proof.
  induction s as [|a s [pre [IH1 IH2]]]; cbn [lstrip].
  - exists []. split; reflexivity.
  - destruct (is_space a) eqn:Ha.
    + exists (a :: pre). cbn [app lstrip]. rewrite Ha. split; [f_equal; exact IH1 | exact IH2].
    + exists []. split; reflexivity.
Qed.

Lemma strip_app_nonspace (u : str) (c : N) (v : str) :
  is_space c = false -> strip (u ++ c :: v) = lstrip u ++ c :: rstrip v.
Proof.
  intros Hc. unfold strip.
  rewrite (lstrip_app_nonspace _ _ _ Hc). apply rstrip_app_nonspace, Hc.
Qed.

Lemma strip_nil : strip [] = [].
Proof. reflexivity. Qed.

Lemma truthy_strip_inv (s : str) :
  truthy (strip s) = true ->
  exists u c v, s = u ++ c :: v /\ is_space c = false /\ lstrip u = [].
Proof.
  intros H. destruct (lstrip_suffix_spaces s) as [pre [E Hpre]].
  destruct (lstrip s) as [|c t] eqn:El.
  - unfold strip in H. rewrite El in H. discriminate.
  - exists pre, c, t. repeat split; [exact E | exact (lstrip_head _ _ _ El) | exact Hpre].
Qed.

Lemma space_is_not_slash (d : N) : is_space d = true -> (d =? 47)%N = false.
Proof.
  intros H. destruct (N.eqb_spec d 47) as [->|]; [|reflexivity].
  vm_compute in H. discriminate.
Qed.

Lemma semicolon_is_not_space : is_space 59 = false.
Proof. reflexivity. Qed.

Lemma skipped_inv (l : str) :
  skipped l = false ->
  exists u c v, l = u ++ c :: v /\ is_space c = false /\ lstrip u = []
                /\ is_comment (c :: rstrip v) = false.
Proof.
  unfold skipped. intros H. apply orb_false_elim in H as [Ht Hc].
  apply negb_false_iff in Ht.
  destruct (truthy_strip_inv _ Ht) as (u & c & v & -> & Hs & Hu).
  exists u, c, v. repeat split; try assumption.
  rewrite (strip_app_nonspace _ _ _ Hs), Hu in Hc. exact Hc.
Qed.

Lemma skipped_app_semicolon (l x : str) :
  skipped l = false -> skipped (l ++ 59%N :: x) = false.
Proof.
  intros H. destruct (skipped_inv _ H) as (u & c & v & -> & Hs & Hu & Hc).
  unfold skipped. rewrite <- app_assoc. cbn [app].
  rewrite (strip_app_nonspace _ _ _ Hs), Hu.
  rewrite (rstrip_app_nonspace _ _ _ semicolon_is_not_space).
  cbn [app truthy negb orb].
  destruct v as [|d v]; cbn [app is_comment].
  - apply andb_false_r.
  - destruct (is_space d) eqn:Hd.
    + rewrite (space_is_not_slash _ Hd). apply andb_false_r.
    + pose proof (rstrip_app_nonspace [] d v Hd) as Hr. cbn [app] in Hr.
      rewrite Hr in Hc. exact Hc.
Qed.

Lemma step_skipped (acc : list str * list str) (line : str) :
  skipped line = true -> step acc line = acc.
Proof.
  unfold skipped, step. destruct acc as [st cur].
  destruct (negb (truthy (strip line))); [reflexivity|].
  cbn [orb]. intros ->. reflexivity.
Qed.

Lemma step_kept (st cur : list str) (line : str) :
  skipped line = false ->
  step (st, cur) line =
  if has_semicolon line then
    let parts := split_semicolon (join_lines (cur ++ [line])) in
    (st ++ filter (fun p => truthy p = true) (strip <$> removelast parts),
     if truthy (strip (List.last parts [])) then [List.last parts []] else [])
  else (st, cur ++ [line]).
Proof.
  unfold skipped, step. intros H. apply orb_false_elim in H as [-> ->].
  reflexivity.
Qed.

Lemma step_plain (st cur : list str) (line : str) :
  plain_line line -> step (st, cur) line = (st, cur ++ [line]).
Proof.
  intros (_ & Hs & Hc). rewrite (step_kept _ _ _ Hs), Hc. reflexivity.
Qed.

Lemma step_semicolon (st cur : list str) (line J r : str) :
  skipped line = false -> has_semicolon line = true ->
  join_lines (cur ++ [line]) = J ++ 59%N :: r ->
  has_semicolon J = false -> has_semicolon r = false ->
  step (st, cur) line =
  (st ++ (if truthy (strip J) then [strip J] else []),
   if truthy (strip r) then [r] else []).
Proof.
  intros Hs Hl E HJ Hr.
  rewrite (step_kept _ _ _ Hs), Hl. cbv zeta.
  rewrite E, (split_semicolon_app _ _ HJ), (split_semicolon_none _ Hr).
  cbn [removelast List.last fmap list_fmap].
  rewrite filter_cons, filter_nil.
  destruct (truthy (strip J)) eqn:Ht; destruct (decide _); congruence.
Qed.

Lemma join_lines_snoc (l : list str) (x y : str) :
  join_lines (l ++ [x ++ y]) = join_lines (l ++ [x]) ++ y.
Proof.
  induction l as [|a l IH]; [reflexivity|].
  cbn [app]. rewrite !join_lines_cons by (destruct l; discriminate).
  rewrite IH, <- app_assoc. reflexivity.
Qed.

Lemma truthy_strip_app (x l : str) :
  skipped l = false -> truthy (strip (x ++ l)) = true.
Proof.
  intros H. destruct (skipped_inv _ H) as (u & c & v & -> & Hs & _).
  rewrite app_assoc, (strip_app_nonspace _ _ _ Hs).
  destruct (lstrip (x ++ u)); reflexivity.
Qed.

Lemma truthy_strip_written (b : list str * str) :
  skipped b.2 = false -> truthy (strip (written b)) = true.
Proof.
  intros H. unfold written.
  change (b.1 ++ [b.2]) with (b.1 ++ [[] ++ b.2]).
  rewrite join_lines_snoc. apply truthy_strip_app, H.
Qed.

Lemma fold_plain (init st cur : list str) :
  Forall plain_line init -> fold_left step init (st, cur) = (st, cur ++ init).
Proof.
  intros H. revert cur. induction H as [|l init Hl _ IH]; intros cur; cbn [fold_left].
  - rewrite app_nil_r. reflexivity.
  - rewrite (step_plain _ _ _ Hl), IH, <- app_assoc. reflexivity.
Qed.

Lemma fold_block (b : list str * str) (st : list str) :
  plain_block b ->
  fold_left step (closed_lines b) (st, []) = (st ++ [strip (written b)], []).
Proof.
  intros [Hi Hl]. unfold closed_lines.
  rewrite fold_left_app, (fold_plain _ _ _ Hi). cbn [fold_left app].
  destruct Hl as (Hn & Hs & Hc).
  rewrite (step_semicolon _ _ _ (written b) []).
  - rewrite (truthy_strip_written _ Hs). reflexivity.
  - pose proof (skipped_app_semicolon _ [] Hs) as H. exact H.
  - rewrite has_semicolon_app. apply orb_true_r.
  - apply join_lines_snoc.
  - apply has_semicolon_join, Forall_app. split.
    + eapply Forall_impl; [exact Hi|]. intros x Hx. apply Hx.
    + constructor; [exact Hc | constructor].
  - reflexivity.
Qed.

Lemma fold_blocks (blocks : list (list str * str)) (st : list str) :
  Forall plain_block blocks ->
  fold_left step (concat (closed_lines <$> blocks)) (st, []) =
  (st ++ ((fun b => strip (written b)) <$> blocks), []).
Proof.
  intros H. revert st. induction H as [|b blocks Hb _ IH]; intros st.
  - cbn. rewrite app_nil_r. reflexivity.
  - cbn [fmap list_fmap concat]. rewrite fold_left_app, (fold_block _ _ Hb), IH.
    rewrite <- app_assoc. reflexivity.
Qed.

Lemma splitlines_cons (c : N) (s : str) :
  splitlines (c :: s) =
  if is_linebreak c then
    [] :: match s with
          | d :: s' => if ((c =? 13) && (d =? 10))%N then splitlines s'
                       else splitlines s
          | [] => splitlines s
          end
  else
    match splitlines s with
    | l :: ls => (c :: l) :: ls
    | [] => [[c]]
    end.
Proof. reflexivity. Qed.

Lemma splitlines_line (l rest : str) :
  no_linebreak l = true -> splitlines (l ++ 10%N :: rest) = l :: splitlines rest.
Proof.
  induction l as [|c l IH]; intros H; cbn [app].
  - rewrite splitlines_cons. change (is_linebreak 10) with true. cbv iota.
    change (10 =? 13)%N with false. cbn [andb].
    destruct rest; reflexivity.
  - cbn [no_linebreak forallb] in H. apply andb_prop in H as [Hc Hl].
    apply negb_true_iff in Hc.
    rewrite splitlines_cons, Hc, (IH Hl). reflexivity.
Qed.

Lemma splitlines_single (l : str) :
  no_linebreak l = true -> l <> [] -> splitlines l = [l].
Proof.
  induction l as [|c l IH]; intros H Hne; [congruence|].
  cbn [no_linebreak forallb] in H. apply andb_prop in H as [Hc Hl].
  apply negb_true_iff in Hc.
  rewrite splitlines_cons, Hc.
  destruct l as [|d l]; [reflexivity|].
  rewrite (IH Hl) by discriminate. reflexivity.
Qed.

Lemma step_blank (acc : list str * list str) : step acc [] = acc.
Proof. apply step_skipped. reflexivity. Qed.

Lemma fold_join (lines : list str) (acc : list str * list str) :
  Forall (fun l => no_linebreak l = true) lines ->
  fold_left step (splitlines (join_lines lines)) acc = fold_left step lines acc.
Proof.
  intros H. revert acc. induction H as [|l lines Hl Hls IH]; intros acc.
  - reflexivity.
  - destruct lines as [|m lines].
    + cbn [join_lines]. destruct l as [|c l].
      * cbn [splitlines fold_left]. rewrite step_blank. reflexivity.
      * rewrite (splitlines_single _ Hl) by discriminate. reflexivity.
    + rewrite join_lines_cons by discriminate.
      rewrite (splitlines_line _ _ Hl). cbn [fold_left]. apply IH.
Qed.

Lemma no_linebreak_app (x y : str) :
  no_linebreak (x ++ y) = no_linebreak x && no_linebreak y.
Proof. apply forallb_app. Qed.

Lemma closed_lines_no_linebreak (blocks : list (list str * str)) :
  Forall plain_block blocks ->
  Forall (fun l => no_linebreak l = true) (concat (closed_lines <$> blocks)).
Proof.
  induction 1 as [|b blocks [Hi Hl] _ IH]; [constructor|].
  cbn [fmap list_fmap concat]. apply Forall_app. split; [|exact IH].
  unfold closed_lines. apply Forall_app. split.
  - eapply Forall_impl; [exact Hi|]. intros x Hx. apply Hx.
  - constructor; [|constructor].
    rewrite no_linebreak_app. destruct Hl as (-> & _). reflexivity.
Qed.

(** X27. When every statement of a script is written over lines of its
    own, none of them blank, a comment or holding a semicolon, and a
    semicolon closes its last line, [run_many] builds exactly these
    statements, in order: each one its lines joined by line feeds, with
    the white space at both ends removed. *)
Theorem statements_of_closed_lines (blocks : list (list str * str)) :
  Forall plain_block blocks ->
  statements_of (join_lines (concat (closed_lines <$> blocks))) =
  (fun b => strip (written b)) <$> blocks.
Proof.
  intros H. rewrite statements_of_fold.
  rewrite (fold_join _ _ (closed_lines_no_linebreak _ H)).
  rewrite (fold_blocks _ [] H). reflexivity.
Qed.

Lemma statements_of_closed_lines_witness :
  statements_of
    (join_lines (concat (closed_lines <$>
       [([lit "MATCH (a:Sintoma)"; lit "  SET a.x = 1"], lit "  RETURN a");
        ([], lit " MERGE (b:Paciente) ")]))) =
  [strip (written ([lit "MATCH (a:Sintoma)"; lit "  SET a.x = 1"], lit "  RETURN a"));
   lit "MERGE (b:Paciente)"].
Proof.
  apply (statements_of_closed_lines
           [([lit "MATCH (a:Sintoma)"; lit "  SET a.x = 1"], lit "  RETURN a");
            ([], lit " MERGE (b:Paciente) ")]).
  repeat constructor.
Defined.

(** X28. Blank lines and comment lines change nothing, wherever they
    stand in the script: a script with such a line among its lines gives
    [run_many] the same statements as the script without it, also when
    the comment holds a semicolon. *)
Theorem statements_of_ignores_skipped (l1 l2 : list str) (c : str) :
  Forall (fun l => no_linebreak l = true) (l1 ++ c :: l2) ->
  skipped c = true ->
  statements_of (join_lines (l1 ++ c :: l2)) = statements_of (join_lines (l1 ++ l2)).
Proof.
  intros H Hc.
  assert (H' : Forall (fun l => no_linebreak l = true) (l1 ++ l2)).
  { apply Forall_app in H as [H1 H2]. apply Forall_app. split; [exact H1|].
    inversion H2; assumption. }
  rewrite !statements_of_fold, (fold_join _ _ H), (fold_join _ _ H').
  rewrite !fold_left_app. cbn [fold_left]. rewrite (step_skipped _ _ Hc).
  reflexivity.
Qed.

Lemma statements_of_ignores_skipped_witness :
  statements_of (join_lines [lit "MATCH (a)"; lit "  // a; b"; lit "RETURN a;"]) =
  statements_of (join_lines [lit "MATCH (a)"; lit "RETURN a;"]).
Proof.
  apply (statements_of_ignores_skipped [lit "MATCH (a)"] [lit "RETURN a;"] (lit "  // a; b")).
  - repeat constructor.
  - reflexivity.
Defined.

(** X29. What follows the last semicolon of a line is not dropped: it
    opens the next statement.  For a line [a;r] with [r] not blank,
    followed by a line [b;], the statements are [a] and [r] joined to
    [b] by a line feed, each with the white space at its ends removed; so
    a comment written after a statement on its line is sent with the
    next statement. *)
Theorem text_after_semicolon_opens_next (a r b : str) :
  plain_line a -> plain_line b ->
  no_linebreak r = true -> has_semicolon r = false -> truthy (strip r) = true ->
  statements_of (join_lines [a ++ 59%N :: r; b ++ [59%N]]) =
  [strip a; strip (r ++ 10%N :: b)].
Proof.
  intros (Hna & Hsa & Hca) (Hnb & Hsb & Hcb) Hnr Hcr Hr.
  rewrite statements_of_fold, fold_join.
  2:{ repeat constructor; rewrite !no_linebreak_app.
      - rewrite Hna. cbn [andb]. change (59%N :: r) with ([59%N] ++ r).
        rewrite no_linebreak_app, Hnr. reflexivity.
      - rewrite Hnb. reflexivity. }
  cbn [fold_left].
  rewrite (step_semicolon [] [] _ a r).
  2:{ apply skipped_app_semicolon, Hsa. }
  2:{ rewrite has_semicolon_app, has_semicolon_cons. cbn. apply orb_true_r. }
  2:{ reflexivity. }
  2:{ exact Hca. }
  2:{ exact Hcr. }
  pose proof (truthy_strip_app [] a Hsa) as Ha. cbn [app] in Ha.
  rewrite Ha, Hr. cbn [app].
  rewrite (step_semicolon _ _ _ (r ++ 10%N :: b) []).
  - pose proof (truthy_strip_app (r ++ [10%N]) b Hsb) as Hb.
    rewrite <- app_assoc in Hb. cbn [app] in Hb. rewrite Hb. reflexivity.
  - pose proof (skipped_app_semicolon _ [] Hsb) as H. exact H.
  - rewrite has_semicolon_app. apply orb_true_r.
  - cbn [app join_lines]. rewrite <- app_assoc. reflexivity.
  - rewrite has_semicolon_app, Hcr, has_semicolon_cons, Hcb. reflexivity.
  - reflexivity.
Qed.

Lemma text_after_semicolon_opens_next_witness :
  statements_of (join_lines [lit "MERGE (a)" ++ 59%N :: lit " // first"; lit "MERGE (b)" ++ [59%N]]) =
  [strip (lit "MERGE (a)"); strip (lit " // first" ++ 10%N :: lit "MERGE (b)")].
Proof.
  apply (text_after_semicolon_opens_next (lit "MERGE (a)") (lit " // first") (lit "MERGE (b)"));
    repeat constructor.
Defined.

Lemma run_each_app {S : Type} (session_run : str -> S -> option S)
    (pre rest results : list str) (st st' : S) :
  run_each session_run pre results st = (st', Returned (results ++ pre)) ->
  run_each session_run (pre ++ rest) results st =
  run_each session_run rest (results ++ pre) st'.
Proof.
  revert results st. induction pre as [|s pre IH]; intros results st; cbn [run_each app].
  - rewrite app_nil_r. intros [= -> ]. reflexivity.
  - destruct (session_run s st) as [st1|]; [|discriminate].
    intros H. rewrite (IH (results ++ [s]) st1).
    + rewrite <- app_assoc. reflexivity.
    + rewrite H, <- app_assoc. reflexivity.
Qed.

(** X30. [run_many] is not atomic.  When the statements before one run
    and leave the store [st'], and that one raises there, the call
    raises with the store [st']: what the earlier statements wrote stays
    written, and no later statement is sent. *)
Theorem run_many_keeps_earlier_statements {S : Type}
    (session_run : str -> S -> option S) (script : str)
    (pre post : list str) (bad : str) (st st' : S) :
  statements_of script = pre ++ bad :: post ->
  run_each session_run pre [] st = (st', Returned pre) ->
  session_run bad st' = None ->
  run_many session_run script st = (st', Raised).
Proof.
  intros E Hpre Hbad. unfold run_many. rewrite E.
  rewrite (run_each_app session_run pre (bad :: post) [] st st' Hpre).
  cbn [run_each]. rewrite Hbad. reflexivity.
Qed.

Lemma run_many_keeps_earlier_statements_witness :
  run_many (fun stmt log => if (length stmt <? 5)%nat then None else Some (log ++ [stmt]))
    (lit "MERGE (a); oops; MERGE (b);") [] = ([lit "MERGE (a)"], Raised).
Proof.
  apply (run_many_keeps_earlier_statements
           (fun stmt log => if (length stmt <? 5)%nat then None else Some (log ++ [stmt]))
           (lit "MERGE (a); oops; MERGE (b);")
           [lit "MERGE (a)"] [lit "MERGE (b)"] (lit "oops") [] [lit "MERGE (a)"]);
    reflexivity.
Defined.

End RunManyProps.
